(** * Simulateur de trafic : le modèle [Vehicule] de [models/vehicule.pyx]

    The Cython class [Vehicule] keeps its kinematic state in C [double]
    attributes.  They are embedded as Rocq's primitive binary64 floats, so
    every definition below runs on the very numbers the compiled extension
    manipulates: rounding to nearest-even, signed zeros, infinities and NaN
    included.  General statements about the float operations go through
    their specification in [SpecFloat] (the [FloatAxioms] of the standard
    library).

    A method becomes a function from the receiver (and its arguments) to the
    receiver after the call, with the returned value when there is one.
    Every method reads what it needs from its arguments before it writes to
    [self], so the embedding is the same whether or not an argument is the
    receiver itself.

    The class [Route] is outside this file's source.  A route is a record of
    the attributes a vehicle reads; the two calls a vehicle makes into it are
    appended to a journal.

    Contents: the data model and the methods; sample objects; facts on
    binary64 rounding, addition and comparison; lemmas on the methods; the
    claims C1 to C10. *)

From Stdlib Require Import ZArith NArith Lia Bool List FinFun Ascii String.
From Stdlib Require Import DecimalString DecimalFacts DecimalN.
From Stdlib Require Import Floats.
Import ListNotations.

Local Open Scope float_scope.

(** ** Data model *)

(** [Route] is the external collaborator of the vehicle.  The class itself
    is not part of [vehicule.pyx]; the vehicle reads three attributes of it
    ([nom], [longueur], [limite_vitesse]) and calls two membership methods
    ([retirer_vehicule], [ajouter_vehicule]), which are recorded as [appel]
    events below. *)
Record Route : Type := mkRoute {
  nom : string;
  longueur : float;
  limite_vitesse : float
}.

(** The [cdef public] attributes of [Vehicule], in declaration order. *)
Record Vehicule : Type := mkVehicule {
  position : float;
  vitesse : float;
  vitesse_max : float;
  distance_parcourue : float;
  temps_trajet : float;
  route_actuelle : option Route;
  identifiant : string
}.

(** Attribute assignment [self.<field> = x]. *)
Definition set_position (self : Vehicule) (x : float) : Vehicule :=
  mkVehicule x (vitesse self) (vitesse_max self) (distance_parcourue self)
    (temps_trajet self) (route_actuelle self) (identifiant self).

Definition set_vitesse (self : Vehicule) (x : float) : Vehicule :=
  mkVehicule (position self) x (vitesse_max self) (distance_parcourue self)
    (temps_trajet self) (route_actuelle self) (identifiant self).

Definition set_distance_parcourue (self : Vehicule) (x : float) : Vehicule :=
  mkVehicule (position self) (vitesse self) (vitesse_max self) x
    (temps_trajet self) (route_actuelle self) (identifiant self).

Definition set_temps_trajet (self : Vehicule) (x : float) : Vehicule :=
  mkVehicule (position self) (vitesse self) (vitesse_max self)
    (distance_parcourue self) x (route_actuelle self) (identifiant self).

Definition set_route_actuelle (self : Vehicule) (r : option Route) : Vehicule :=
  mkVehicule (position self) (vitesse self) (vitesse_max self)
    (distance_parcourue self) (temps_trajet self) r (identifiant self).

(** A call into the [Route] collaborator: the receiver and the vehicle as it
    is at the moment of the call. *)
Inductive appel : Type :=
| Retirer_vehicule (route : Route) (vehicule : Vehicule)
| Ajouter_vehicule (route : Route) (vehicule : Vehicule).

(** ** The builtins [min] and [max]

    Python's [min(a, b, c)] keeps the first argument and replaces it by a
    later one only when that one compares strictly below the running
    result; [max(a, b)] is symmetric with [>].  Cython expands the calls to
    exactly these cascaded conditionals. *)
Definition min3 (a b c : float) : float :=
  let r := if b <? a then b else a in
  if c <? r then c else r.

Definition max2 (a b : float) : float :=
  if a <? b then b else a.

(** ** Methods *)

(** The format [{n:04d}] of a counter value: its decimal digits, padded with
    zeros on the left to a width of four. *)
Fixpoint zeros (k : nat) : string :=
  match k with
  | O => EmptyString
  | S k => String "0"%char (zeros k)
  end.

Definition format_04d (n : N) : string :=
  let chiffres := NilZero.string_of_uint (N.to_uint n) in
  (zeros (4 - String.length chiffres) ++ chiffres)%string.

(** [Vehicule.__init__].  The class attribute [_compteur_id] is threaded
    through: the constructor takes its value and returns the incremented
    one with the new vehicle. *)
Definition init (_compteur_id : N) (vitesse_initiale position_initiale : float)
    (route_actuelle : option Route) : N * Vehicule :=
  let _compteur_id := N.succ _compteur_id in
  (_compteur_id,
   mkVehicule position_initiale vitesse_initiale 130 0 0 route_actuelle
     ("VEH_" ++ format_04d _compteur_id)%string).

(** The local [deplacement] of [avancer] (lines 48-52). *)
Definition deplacement (self : Vehicule) (route : Route) (delta_t : float) : float :=
  let delta_h := delta_t / 60 in
  let vitesse_effective :=
    min3 (vitesse self) (limite_vitesse route) (vitesse_max self) in
  vitesse_effective * delta_h.

(** [Vehicule.avancer]: returns the vehicle after the call. *)
Definition avancer (self : Vehicule) (delta_t : float) : Vehicule :=
  match route_actuelle self with
  | None => self
  | Some route =>
      let delta_h := delta_t / 60 in
      let vitesse_effective :=
        min3 (vitesse self) (limite_vitesse route) (vitesse_max self) in
      let deplacement := vitesse_effective * delta_h in
      let self := set_position self (position self + deplacement) in
      let self :=
        set_distance_parcourue self (distance_parcourue self + deplacement) in
      let self := set_temps_trajet self (temps_trajet self + delta_t) in
      if longueur route <=? position self
      then set_position self (longueur route)
      else self
  end.

(** [Vehicule.changer_de_route]: the returned boolean, the vehicle after the
    call, and the journal of calls made into [Route], oldest first. *)
Definition changer_de_route (self : Vehicule) (nouvelle_route : option Route)
    (journal : list appel) : bool * Vehicule * list appel :=
  match nouvelle_route with
  | None => (false, self, journal)
  | Some nouvelle =>
      let journal :=
        match route_actuelle self with
        | Some ancienne => journal ++ [Retirer_vehicule ancienne self]
        | None => journal
        end in
      let self := set_route_actuelle self (Some nouvelle) in
      let self := set_position self 0 in
      let journal := journal ++ [Ajouter_vehicule nouvelle self] in
      (true, self, journal)
  end.

(** The default value [0.05] of the parameter [distance_securite], written as
    the binary64 number the literal denotes. *)
Definition distance_securite_defaut : float := 0x1.999999999999ap-5.

(** [Vehicule.ajuster_vitesse]: returns the vehicle after the call.  The C
    local [v_devant] stays unassigned when there is no vehicle ahead; it is
    then never read, since [p_devant = -1.0] takes the early return. *)
Definition ajuster_vitesse (self : Vehicule) (vehicule_devant : option Vehicule)
    (distance_securite : float) : Vehicule :=
  match route_actuelle self with
  | None => self
  | Some route =>
      let p_devant :=
        match vehicule_devant with
        | None => -1
        | Some devant => position devant
        end in
      let v_devant :=
        match vehicule_devant with
        | None => 0
        | Some devant => vitesse devant
        end in
      if p_devant <? 0 then
        set_vitesse self
          (min3 (vitesse self + 10) (limite_vitesse route) (vitesse_max self))
      else
        let distance := p_devant - position self in
        if distance <? distance_securite then
          set_vitesse self (max2 0 (v_devant - 10))
        else if distance <? distance_securite * 2 then
          set_vitesse self v_devant
        else
          set_vitesse self
            (min3 (vitesse self + 5) (limite_vitesse route) (vitesse_max self))
  end.

(** [Vehicule.est_arrive]: the returned boolean and the vehicle after the
    call. *)
Definition est_arrive (self : Vehicule) : bool * Vehicule :=
  match route_actuelle self with
  | None => (false, self)
  | Some route => (longueur route <=? position self, self)
  end.

(** Repeated calls of [avancer], one per simulation step, first step first. *)
Definition avancer_plusieurs (self : Vehicule) (deltas : list float) : Vehicule :=
  fold_left avancer deltas self.

(** ** The car-following rule as the specification words it

    Written from the specification's sentence, not from the code: the gap to
    the leader selects one of three zones (brake, match, accelerate). *)
Definition spec_trois_zones (self : Vehicule) (route : Route) (devant : Vehicule)
    (safety_distance : float) : float :=
  let gap := position devant - position self in
  if gap <? safety_distance then max2 0 (vitesse devant - 10)
  else if gap <? 2 * safety_distance then vitesse devant
  else min3 (vitesse self + 5) (limite_vitesse route) (vitesse_max self).

(** ** Sample objects

    Every vehicle below is built by the constructor. *)

Definition route_a1 : Route := mkRoute "A1" 10 90.

(** A vehicle with no route. *)
Definition vehicule_libre : Vehicule := snd (init 0 50 0 None).

(** A vehicle entering [route_a1] at 50 km/h. *)
Definition vehicule_a1 : Vehicule := snd (init 1 50 0 (Some route_a1)).

(** A vehicle placed at the end of [route_a1]. *)
Definition vehicule_au_bout : Vehicule := snd (init 2 50 10 (Some route_a1)).

(** A vehicle placed at the end of [route_a1] with a negative initial
    speed, which the constructor accepts as it is. *)
Definition vehicule_marche_arriere : Vehicule :=
  snd (init 3 (-60) 10 (Some route_a1)).

(** A vehicle with a negative initial position, 0.5 km before the start of
    the route. *)
Definition vehicule_en_amont : Vehicule :=
  snd (init 4 50 (-0.5) (Some route_a1)).

(** A follower 0.03125 km behind [vehicule_en_amont]. *)
Definition vehicule_suiveur_amont : Vehicule :=
  snd (init 5 50 (-0.53125) (Some route_a1)).

(** A fast leader, 0.0625 km ahead of [vehicule_a1]. *)
Definition vehicule_rapide : Vehicule :=
  snd (init 6 200 0.0625 (Some route_a1)).

(** A vehicle built with the default arguments (speed 0.0, position 0.0)
    and put at the end of [route_a1]. *)
Definition vehicule_arrete : Vehicule := snd (init 7 0 10 (Some route_a1)).

(** A second, shorter route. *)
Definition route_n7 : Route := mkRoute "N7" 5 50.

(** ** Sequences of calls *)


(** Calls of [changer_de_route] one after the other on the same vehicle,
    the returned booleans dropped. *)
Definition transferts (self : Vehicule) (routes : list (option Route))
    (journal : list appel) : Vehicule * list appel :=
  fold_left
    (fun etat nouvelle_route =>
       let '(_, apres, journal) :=
         changer_de_route (fst etat) nouvelle_route (snd etat) in
       (apres, journal))
    routes (self, journal).

(** A journal in which additions and removals alternate, starting with an
    addition, each removal naming the route of the addition before it.  The
    index is the route the vehicle is left registered with. *)
Inductive journal_alterne : option Route -> list appel -> Prop :=
| journal_vide : journal_alterne None []
| journal_ajout route v journal :
    journal_alterne None journal ->
    journal_alterne (Some route) (journal ++ [Ajouter_vehicule route v])
| journal_retrait route v journal :
    journal_alterne (Some route) journal ->
    journal_alterne None (journal ++ [Retirer_vehicule route v]).

(** The route a vehicle is left with after a sequence of requests: the last
    one that is not [None], or the route it started with. *)
Definition route_demandee (depart : option Route) (routes : list (option Route))
    : option Route :=
  fold_left
    (fun courante nouvelle_route =>
       match nouvelle_route with
       | Some nouvelle => Some nouvelle
       | None => courante
       end)
    routes depart.

(** A leader 5 km down [route_a1], far ahead of [vehicule_a1]. *)
Definition vehicule_loin : Vehicule := snd (init 8 70 5 (Some route_a1)).

(** A vehicle placed at 10 km on [route_n7], beyond its end. *)
Definition vehicule_au_dela : Vehicule := snd (init 9 50 10 (Some route_n7)).

(** A vehicle entering [route_a1] at 200 km/h. *)
Definition vehicule_presse : Vehicule := snd (init 10 200 0 (Some route_a1)).



(** ** Auxiliary notions for the binary64 reasoning *)

(** The tail of [SpecFloat.binary_round_aux]: renormalisation of the rounded
    mantissa [q] and the overflow test. *)
Definition finish (s : bool) (q e : Z) : spec_float :=
  let '(mrs, e') := shr_fexp prec emax q e loc_Exact in
  match shr_m mrs with
  | Z0 => S754_zero s
  | Zpos m =>
      if (e' <=? emax - prec)%Z then S754_finite s m e' else S754_infinity s
  | Zneg _ => S754_nan
  end.

(** What [finish] can return for a mantissa of at most 53 bits plus a
    possible carry. *)
Inductive finish_result (s : bool) (q e : Z) : spec_float -> Prop :=
| finish_zero : q = 0%Z -> finish_result s q e (S754_zero s)
| finish_keep p :
    q = Zpos p -> (q < 2 ^ 53)%Z -> (e <= 971)%Z ->
    finish_result s q e (S754_finite s p e)
| finish_carry :
    q = (2 ^ 53)%Z -> (e + 1 <= 971)%Z ->
    finish_result s q e (S754_finite s 4503599627370496 (e + 1))
| finish_overflow :
    (0 < q)%Z -> (971 < e \/ (q = 2 ^ 53 /\ 971 < e + 1))%Z ->
    finish_result s q e (S754_infinity s).

(** [0 <= x] on specification floats: a zero of either sign, a positive
    finite number or plus infinity. *)
Definition SFnonneg (x : spec_float) : Prop := SFleb (S754_zero false) x = true.

(** * Binary64 arithmetic

    Facts about rounding, addition and comparison of binary64 numbers,
    proved on the specification [SpecFloat] and carried to the primitive
    operations through [FloatAxioms]. *)

Section Arrondi.

Local Open Scope Z_scope.

(** ** Digits and shifts *)

Lemma digits2_pos_size (p : positive) : digits2_pos p = Pos.size p.
Proof. induction p; simpl; congruence. Qed.

Lemma digits2_pos_log2 (p : positive) :
  Zpos (digits2_pos p) = Z.log2 (Zpos p) + 1.
Proof.
  rewrite digits2_pos_size.
  destruct p; simpl; lia.
Qed.

Lemma digits2_pos_bounds (p : positive) :
  2 ^ (Zpos (digits2_pos p) - 1) <= Zpos p < 2 ^ Zpos (digits2_pos p).
Proof.
  rewrite digits2_pos_log2.
  replace (Z.log2 (Zpos p) + 1 - 1) with (Z.log2 (Zpos p)) by lia.
  replace (Z.log2 (Zpos p) + 1) with (Z.succ (Z.log2 (Zpos p))) by lia.
  apply Z.log2_spec. lia.
Qed.

(** [SpecFloat.iter_pos] is plain iteration. *)
Lemma iter_pos_nat {A} (f : A -> A) (p : positive) (x : A) :
  iter_pos f p x = Nat.iter (Pos.to_nat p) f x.
Proof.
  revert x. induction p as [p IH | p IH |]; intros x; cbn [iter_pos].
  - rewrite !IH, Pos2Nat.inj_xI.
    replace (S (2 * Pos.to_nat p))%nat with (Pos.to_nat p + (Pos.to_nat p + 1))%nat by lia.
    rewrite !Nat.iter_add. simpl. reflexivity.
  - rewrite !IH, Pos2Nat.inj_xO.
    replace (2 * Pos.to_nat p)%nat with (Pos.to_nat p + Pos.to_nat p)%nat by lia.
    rewrite Nat.iter_add. reflexivity.
  - reflexivity.
Qed.

(** One step of [shr_1] halves the mantissa, records the bit shifted out
    as the round bit and folds the former round bit into the sticky bit. *)
Lemma shr_1_m (mrs : shr_record) :
  0 <= shr_m mrs -> shr_m (shr_1 mrs) = shr_m mrs / 2.
Proof.
  destruct mrs as [m r s]; simpl. intros Hm.
  destruct m as [| [p | p |] |]; simpl; try reflexivity; try lia.
  - apply Z.div_unique with 1; lia.
  - apply Z.div_unique with 0; lia.
Qed.

Lemma shr_1_r (mrs : shr_record) :
  0 <= shr_m mrs -> shr_r (shr_1 mrs) = Z.odd (shr_m mrs).
Proof.
  destruct mrs as [m r s]; simpl. intros Hm.
  destruct m as [| [p | p |] |]; simpl; try lia; reflexivity.
Qed.

Lemma shr_1_s (mrs : shr_record) :
  shr_s (shr_1 mrs) = shr_r mrs || shr_s mrs.
Proof.
  destruct mrs as [m r s]; simpl.
  destruct m as [| [p | p |] | [p | p |]]; reflexivity.
Qed.

Lemma shr_iter_m (n : nat) (mrs : shr_record) :
  0 <= shr_m mrs ->
  shr_m (Nat.iter n shr_1 mrs) = shr_m mrs / 2 ^ Z.of_nat n.
Proof.
  intros Hm. induction n as [| n IH].
  - simpl. now rewrite Z.div_1_r.
  - rewrite Nat.iter_succ, shr_1_m.
    + rewrite IH, Nat2Z.inj_succ, Z.pow_succ_r by lia.
      rewrite Z.div_div by lia. f_equal. lia.
    + rewrite IH. apply Z.div_pos; lia.
Qed.

(** Shifting out [n] zero bits leaves the record exact. *)
Lemma shr_iter_exact (n : nat) (m : Z) :
  0 <= m -> m mod 2 ^ Z.of_nat n = 0 ->
  let mrs := Nat.iter n shr_1 (Build_shr_record m false false) in
  shr_r mrs = false /\ shr_s mrs = false.
Proof.
  intros Hm. induction n as [| n IH]; intros Hmod.
  - simpl. auto.
  - assert (Hpow : 2 ^ Z.of_nat (S n) = 2 * 2 ^ Z.of_nat n)
      by (rewrite Nat2Z.inj_succ, Z.pow_succ_r; lia).
    assert (Hpos : 0 < 2 ^ Z.of_nat n) by (apply Z.pow_pos_nonneg; lia).
    rewrite Hpow in Hmod.
    apply Z.mod_divide in Hmod; [| lia].
    destruct Hmod as [k Hk].
    assert (Hn : m mod 2 ^ Z.of_nat n = 0).
    { apply Z.mod_divide; [lia |]. exists (k * 2). lia. }
    specialize (IH Hn). cbn zeta in IH. destruct IH as [Hr Hs].
    rewrite Nat.iter_succ.
    set (prev := Nat.iter n shr_1 (Build_shr_record m false false)) in *.
    assert (Hprev : shr_m prev = m / 2 ^ Z.of_nat n)
      by (unfold prev; rewrite shr_iter_m; simpl; auto).
    split.
    + rewrite shr_1_r.
      * rewrite Hprev, Hk.
        replace (k * (2 * 2 ^ Z.of_nat n)) with ((k * 2) * 2 ^ Z.of_nat n) by lia.
        rewrite Z.div_mul by lia.
        rewrite Z.odd_mul. simpl. apply andb_false_r.
      * rewrite Hprev. apply Z.div_pos; lia.
    + rewrite shr_1_s, Hr, Hs. reflexivity.
Qed.


Lemma fexp_eq (e : Z) : fexp prec emax e = Z.max (e - 53) (-1074).
Proof. reflexivity. Qed.

Lemma iter_xO_val (m d : positive) :
  Zpos (Pos.iter xO m d) = Zpos m * 2 ^ Zpos d.
Proof.
  induction d as [| d IH] using Pos.peano_ind.
  - simpl. lia.
  - rewrite Pos.iter_succ, Pos2Z.inj_xO, IH, Pos2Z.inj_succ, Z.pow_succ_r; lia.
Qed.

Lemma iter_xO_digits (m d : positive) :
  Zpos (digits2_pos (Pos.iter xO m d)) = Zpos (digits2_pos m) + Zpos d.
Proof.
  induction d as [| d IH] using Pos.peano_ind.
  - simpl. lia.
  - rewrite Pos.iter_succ. cbn [digits2_pos]. lia.
Qed.

Lemma digits2_pos_le_iff (p : positive) (k : Z) :
  0 <= k -> (Zpos (digits2_pos p) <= k <-> Zpos p < 2 ^ k).
Proof.
  intros Hk. pose proof (digits2_pos_bounds p) as [Hlo Hhi]. split; intros H.
  - apply Z.lt_le_trans with (1 := Hhi). apply Z.pow_le_mono_r; lia.
  - destruct (Z_le_gt_dec (Zpos (digits2_pos p)) k) as [|Hgt]; [assumption|].
    exfalso. assert (2 ^ k <= 2 ^ (Zpos (digits2_pos p) - 1))
      by (apply Z.pow_le_mono_r; lia). lia.
Qed.

Lemma digits2_pos_mono (p q : positive) :
  Zpos p <= Zpos q -> Zpos (digits2_pos p) <= Zpos (digits2_pos q).
Proof.
  intros H. apply digits2_pos_le_iff; [lia |].
  pose proof (digits2_pos_bounds q). lia.
Qed.

(** [shr] started from an exact record. *)
Lemma shr_exact_spec (m e n : Z) :
  0 <= m ->
  let res := shr (Build_shr_record m false false) e n in
  snd res = e + Z.max n 0 /\
  shr_m (fst res) = m / 2 ^ Z.max n 0 /\
  (m mod 2 ^ Z.max n 0 = 0 ->
   loc_of_shr_record (fst res) = loc_Exact).
Proof.
  intros Hm. destruct n as [| p | p]; cbn [shr fst snd].
  - rewrite Z.max_r by lia. simpl. rewrite Z.div_1_r. repeat split; lia.
  - rewrite Z.max_l by lia. rewrite iter_pos_nat.
    split; [reflexivity | ].
    rewrite <- (positive_nat_Z p). split.
    + rewrite shr_iter_m by (simpl; lia). reflexivity.
    + intros Hmod. destruct (shr_iter_exact (Pos.to_nat p) m Hm Hmod) as [Hr Hs].
      destruct (Nat.iter _ _ _) as [m' r' s']. simpl in *. subst. reflexivity.
  - rewrite Z.max_r by lia. simpl. rewrite Z.div_1_r. repeat split; lia.
Qed.

Lemma round_nearest_even_bounds (q : Z) (l : location) :
  q <= round_nearest_even q l <= q + 1.
Proof.
  destruct l as [| []]; simpl; try lia. destruct (Z.even q); lia.
Qed.


Lemma binary_round_aux_finish (s : bool) (m e : Z) (l : location) :
  binary_round_aux prec emax s m e l =
  finish s (round_nearest_even (shr_m (fst (shr_fexp prec emax m e l)))
              (loc_of_shr_record (fst (shr_fexp prec emax m e l))))
    (snd (shr_fexp prec emax m e l)).
Proof.
  unfold binary_round_aux, finish.
  destruct (shr_fexp prec emax m e l) as [mrs e']. reflexivity.
Qed.


(** A rounded mantissa [q <= 2 ^ 53] is kept as it is, or halved with the
    exponent incremented when it reached [2 ^ 53]; the result overflows to
    an infinity past the exponent 971. *)
Lemma finish_spec (s : bool) (q e : Z) :
  -1074 <= e -> 0 <= q <= 2 ^ 53 -> finish_result s q e (finish s q e).
Proof.
  intros He Hq. unfold finish, shr_fexp. cbn [shr_record_of_loc].
  destruct q as [| p | p]; [| | lia].
  - cbn [Zdigits2].
    pose proof (shr_exact_spec 0 e (fexp prec emax (0 + e) - e) (Z.le_refl 0)) as H.
    cbn zeta in H. destruct (shr _ _ _) as [mrs e']. cbn [fst snd] in H.
    destruct H as (_ & Hm & _). rewrite Z.div_0_l in Hm.
    + rewrite Hm. now constructor.
    + apply Z.pow_nonzero; lia.
  - cbn [Zdigits2]. rewrite fexp_eq.
    destruct (Z_lt_le_dec (Zpos p) (2 ^ 53)) as [Hlt | Hge].
    + assert (Hd : Zpos (digits2_pos p) <= 53) by (apply digits2_pos_le_iff; lia).
      assert (Hn : Z.max (Zpos (digits2_pos p) + e - 53) (-1074) - e <= 0) by lia.
      destruct (Z.max (Zpos (digits2_pos p) + e - 53) (-1074) - e) as [| n | n] eqn:En;
        try lia; cbn [shr shr_m]; change (emax - prec) with 971;
        (destruct (Z.leb_spec e 971); [now constructor | apply finish_overflow; lia]).
    + assert (Hp : Zpos p = 2 ^ 53) by lia.
      assert (Hp' : p = (2 ^ 53)%positive) by (apply Pos2Z.inj; rewrite Hp; reflexivity).
      subst p. change (Zpos (digits2_pos (2 ^ 53))) with 54.
      replace (Z.max (54 + e - 53) (-1074) - e) with 1 by lia.
      cbn [shr iter_pos]. change (shr_m (shr_1 _)) with (Zpos 4503599627370496).
      cbv iota beta. change (emax - prec) with 971.
      destruct (Z.leb_spec (e + 1) 971); [now constructor | apply finish_overflow; lia].
Qed.

(** ** Rounding an integer mantissa *)


Lemma digits2_pos_ge (p : positive) (k : Z) :
  0 <= k -> 2 ^ k <= Zpos p -> k + 1 <= Zpos (digits2_pos p).
Proof.
  intros Hk H. pose proof (digits2_pos_bounds p) as [_ Hhi].
  assert (Hlt : 2 ^ k < 2 ^ Zpos (digits2_pos p)) by lia.
  apply Z.pow_lt_mono_r_iff in Hlt; lia.
Qed.

Lemma shl_align_val (m : positive) (e ez : Z) :
  ez <= e -> Zpos (fst (shl_align m e ez)) = Zpos m * 2 ^ (e - ez).
Proof.
  intros H. unfold shl_align.
  destruct (ez - e) as [| d | d] eqn:E; cbn [fst].
  - replace (e - ez) with 0 by lia. simpl. lia.
  - lia.
  - rewrite iter_xO_val. f_equal. f_equal. lia.
Qed.

Lemma shl_align_fexp (m : positive) (e e0 : Z) :
  e0 <= e ->
  exists m', shl_align m e e0 = (m', e0) /\
    Zpos m' = Zpos m * 2 ^ (e - e0) /\
    Zpos (digits2_pos m') + e0 = Zpos (digits2_pos m) + e.
Proof.
  intros H. unfold shl_align.
  destruct (e0 - e) as [| d | d] eqn:E.
  - exists m. assert (e0 = e) by lia. subst e0.
    rewrite Z.sub_diag. simpl. split; [reflexivity | lia].
  - lia.
  - exists (Pos.iter xO m d). rewrite iter_xO_val, iter_xO_digits.
    replace (e - e0) with (Zpos d) by lia. split; [reflexivity | lia].
Qed.

(** [binary_round s P e] rounds [P * 2 ^ e] at the exponent
    [e0 = fexp (digits P + e)]: the mantissa [q] handed to [finish] is the
    exact quotient when there is one, and otherwise the quotient rounded
    down or up by one. *)
Lemma binary_round_shape (s : bool) (P : positive) (e : Z) :
  let e0 := fexp prec emax (Zpos (digits2_pos P) + e) in
  exists q,
    binary_round prec emax s P e = finish s q e0 /\
    0 <= q <= 2 ^ 53 /\
    (e0 <= e -> q = Zpos P * 2 ^ (e - e0)) /\
    (e < e0 ->
     Zpos P / 2 ^ (e0 - e) <= q <= Zpos P / 2 ^ (e0 - e) + 1 /\
     (Zpos P mod 2 ^ (e0 - e) = 0 -> q = Zpos P / 2 ^ (e0 - e)) /\
     (-1074 < e0 -> 2 ^ 52 <= q)).
Proof.
  intros e0. unfold binary_round.
  pose proof (digits2_pos_bounds P) as [HPlo HPhi].
  assert (He0 : e0 = Z.max (Zpos (digits2_pos P) + e - 53) (-1074)) by reflexivity.
  destruct (Z_le_gt_dec e0 e) as [Hle | Hgt].
  - destruct (shl_align_fexp P e e0 Hle) as (m' & Hal & Hval & Hdig).
    fold e0. rewrite Hal. rewrite binary_round_aux_finish.
    unfold shr_fexp. cbn [Zdigits2 shr_record_of_loc].
    rewrite Hdig. fold e0. rewrite Z.sub_diag. cbn [shr fst snd shr_m loc_of_shr_record].
    cbn [round_nearest_even].
    exists (Zpos m'). split; [reflexivity |]. split; [| split; [intros _; exact Hval | lia]].
    split; [lia |].
    assert (Zpos (digits2_pos m') <= 53) by lia.
    apply digits2_pos_le_iff in H; lia.
  - assert (Hal : shl_align P e e0 = (P, e)).
    { unfold shl_align. destruct (e0 - e) eqn:E; try reflexivity; lia. }
    fold e0. rewrite Hal. rewrite binary_round_aux_finish.
    unfold shr_fexp. cbn [Zdigits2 shr_record_of_loc]. fold e0.
    pose proof (shr_exact_spec (Zpos P) e (e0 - e) (Pos2Z.is_nonneg P)) as Hshr.
    cbn zeta in Hshr. rewrite Z.max_l in Hshr by lia.
    destruct (shr _ e (e0 - e)) as [mrs e'] eqn:Eshr. cbn [fst snd] in *.
    destruct Hshr as (He' & Hm & Hex).
    replace e' with e0 by lia.
    set (n := e0 - e) in *.
    assert (Hn : 0 < n) by lia.
    assert (Hpown : 0 < 2 ^ n) by (apply Z.pow_pos_nonneg; lia).
    pose proof (round_nearest_even_bounds (shr_m mrs) (loc_of_shr_record mrs)) as Hr.
    exists (round_nearest_even (shr_m mrs) (loc_of_shr_record mrs)).
    split; [reflexivity |]. rewrite Hm in *.
    assert (Hq0 : 0 <= Zpos P / 2 ^ n) by (apply Z.div_pos; lia).
    assert (Hq0' : Zpos P / 2 ^ n < 2 ^ 53).
    { apply Z.div_lt_upper_bound; [lia |].
      rewrite <- Z.pow_add_r by lia.
      apply Z.lt_le_trans with (1 := HPhi). apply Z.pow_le_mono_r; lia. }
    split; [lia |]. split; [lia |]. intros _. split; [lia |]. split.
    + intros Hmod. rewrite (Hex Hmod). reflexivity.
    + intros Hmin.
      assert (2 ^ 52 <= Zpos P / 2 ^ n); [| lia].
      apply Z.div_le_lower_bound; [lia |].
      rewrite Z.mul_comm, <- Z.pow_add_r by lia.
      apply Z.le_trans with (2 := HPlo). apply Z.pow_le_mono_r; lia.
Qed.

(** Facts carried by a valid finite float. *)
Lemma bounded_facts (m : positive) (e : Z) :
  bounded prec emax m e = true ->
  -1074 <= e <= 971 /\ Zpos m < 2 ^ 53 /\
  fexp prec emax (Zpos (digits2_pos m) + e) = e /\
  (-1074 < e -> 2 ^ 52 <= Zpos m).
Proof.
  unfold bounded, canonical_mantissa. rewrite andb_true_iff, Z.eqb_eq, Z.leb_le.
  rewrite fexp_eq. change (emax - prec) with 971. intros [Hc Hb].
  pose proof (digits2_pos_bounds m) as [Hlo Hhi].
  split; [lia |]. split; [| split; [exact Hc |]].
  - apply digits2_pos_le_iff; lia.
  - intros He. replace (Zpos (digits2_pos m)) with 53 in Hlo by lia. exact Hlo.
Qed.

(** Rounding a positive mantissa keeps the sign and never gives NaN. *)
Lemma binary_round_sign (s : bool) (P : positive) (e : Z) :
  match binary_round prec emax s P e with
  | S754_zero s' | S754_infinity s' | S754_finite s' _ _ => s' = s
  | S754_nan => False
  end.
Proof.
  destruct (binary_round_shape s P e) as (q & Hr & Hq & _). rewrite Hr.
  destruct (finish_spec s q (fexp prec emax (Zpos (digits2_pos P) + e)));
    try reflexivity; try assumption.
  rewrite fexp_eq. lia.
Qed.

(** Rounding is monotone against a representable number: a value at or
    above a positive float rounds at or above it ... *)
Lemma binary_round_up (mx : positive) (ex : Z) (P : positive) (e : Z) :
  bounded prec emax mx ex = true ->
  e <= ex -> Zpos mx * 2 ^ (ex - e) <= Zpos P ->
  SFleb (S754_finite false mx ex) (binary_round prec emax false P e) = true.
Proof.
  intros Hb Hle HP.
  destruct (bounded_facts mx ex Hb) as (Hex & Hmx & Hcan & Hnorm).
  pose proof (digits2_pos_bounds mx) as [Hmlo Hmhi].
  assert (Hpow : 0 < 2 ^ (ex - e)) by (apply Z.pow_pos_nonneg; lia).
  assert (Hdig : Zpos (digits2_pos mx) + ex <= Zpos (digits2_pos P) + e).
  { assert (Zpos (digits2_pos mx) - 1 + (ex - e) + 1 <= Zpos (digits2_pos P)); [| lia].
    apply digits2_pos_ge; [lia |].
    rewrite Z.pow_add_r by lia. nia. }
  destruct (binary_round_shape false P e) as (q & Hr & Hq & Hqle & Hqgt).
  set (e0 := fexp prec emax (Zpos (digits2_pos P) + e)) in *.
  assert (He0 : ex <= e0).
  { unfold e0. rewrite <- Hcan, !fexp_eq. lia. }
  assert (He0min : -1074 <= e0) by (unfold e0; rewrite fexp_eq; lia).
  assert (Hqlow : (e0 = ex -> Zpos mx <= q) /\ 0 < q).
  { destruct (Z_le_gt_dec e0 e) as [H1 | H1].
    - rewrite (Hqle H1). assert (e0 = e /\ ex = e) as [-> ->] by lia.
      rewrite Z.sub_diag in *. simpl in *. lia.
    - destruct (Hqgt ltac:(lia)) as (Hq0 & _ & Hbig).
      destruct (Z.eq_dec e0 ex) as [Heq | Hne].
      + assert (Zpos mx <= Zpos P / 2 ^ (e0 - e)); [| lia].
        rewrite Heq. apply Z.div_le_lower_bound; lia.
      + assert (2 ^ 52 <= q) by (apply Hbig; lia). lia. }
  destruct Hqlow as [Hqmx Hqpos].
  rewrite Hr. unfold SFleb, SFcompare.
  destruct (finish_spec false q e0 He0min Hq) as [Hz | p Hp Hlt He | Hc He | Hpos Hov].
  - lia.
  - destruct (Z.compare_spec ex e0) as [Heq | Hl | Hg]; try reflexivity; [| lia].
    fold (Pos.compare mx p).
    destruct (Pos.compare_spec mx p) as [| |Hgt]; try reflexivity.
    specialize (Hqmx (eq_sym Heq)). lia.
  - destruct (Z.compare_spec ex (e0 + 1)) as [Heq | Hl | Hg]; try reflexivity; lia.
  - reflexivity.
Qed.

(** ... and a magnitude at or below that of a negative float rounds at or
    above it. *)
Lemma binary_round_down (mx : positive) (ex : Z) (P : positive) (e : Z) :
  bounded prec emax mx ex = true ->
  e <= ex -> Zpos P <= Zpos mx * 2 ^ (ex - e) ->
  SFleb (S754_finite true mx ex) (binary_round prec emax true P e) = true.
Proof.
  intros Hb Hle HP.
  destruct (bounded_facts mx ex Hb) as (Hex & Hmx & Hcan & Hnorm).
  pose proof (digits2_pos_bounds mx) as [Hmlo Hmhi].
  assert (Hpow : 0 < 2 ^ (ex - e)) by (apply Z.pow_pos_nonneg; lia).
  assert (Hdig : Zpos (digits2_pos P) + e <= Zpos (digits2_pos mx) + ex).
  { assert (Zpos (digits2_pos P) <= Zpos (digits2_pos mx) + (ex - e)); [| lia].
    apply digits2_pos_le_iff; [lia |].
    rewrite Z.pow_add_r by lia. nia. }
  destruct (binary_round_shape true P e) as (q & Hr & Hq & Hqle & Hqgt).
  set (e0 := fexp prec emax (Zpos (digits2_pos P) + e)) in *.
  assert (He0 : e0 <= ex).
  { unfold e0. rewrite <- Hcan, !fexp_eq. lia. }
  assert (He0min : -1074 <= e0) by (unfold e0; rewrite fexp_eq; lia).
  assert (Hqup : e0 = ex -> q <= Zpos mx).
  { intros Heq. destruct (Z_le_gt_dec e0 e) as [H1 | H1].
    - rewrite (Hqle H1). assert (e0 = e /\ ex = e) as [-> ->] by lia.
      rewrite Z.sub_diag in *. simpl in *. lia.
    - destruct (Hqgt ltac:(lia)) as (Hq0 & Hexact & _).
      rewrite Heq in *.
      destruct (Z.eq_dec (Zpos P mod 2 ^ (ex - e)) 0) as [Hmod | Hmod].
      + rewrite (Hexact Hmod). apply Z.div_le_upper_bound; lia.
      + assert (Zpos P / 2 ^ (ex - e) < Zpos mx); [| lia].
        apply Z.div_lt_upper_bound; [lia |].
        assert (Zpos P <> 2 ^ (ex - e) * Zpos mx); [| lia].
        intros Heq'. apply Hmod. rewrite Heq', Z.mul_comm. apply Z_mod_mult. }
  rewrite Hr. unfold SFleb, SFcompare.
  destruct (finish_spec true q e0 He0min Hq) as [Hz | p Hp Hlt He | Hc He | Hpos Hov].
  - reflexivity.
  - destruct (Z.compare_spec ex e0) as [Heq | Hl | Hg]; try reflexivity; [| lia].
    fold (Pos.compare mx p).
    destruct (Pos.compare_spec mx p) as [| Hlt' |]; try reflexivity.
    specialize (Hqup (eq_sym Heq)). lia.
  - destruct (Z.compare_spec ex (e0 + 1)) as [Heq | Hl | Hg]; try reflexivity.
    + assert (Hbig : 2 ^ 52 <= Zpos mx) by (apply Hnorm; lia).
      rewrite Pos.compare_cont_spec. cbn [Pos.switch_Eq].
      rewrite Pos2Z.inj_compare.
      destruct (Z.compare_spec (Zpos mx) 4503599627370496) as [| Hlt' |];
        try reflexivity.
      lia.
    + assert (e0 = ex) by lia. specialize (Hqup H). lia.
  - assert (e0 = ex) by lia. specialize (Hqup H). lia.
Qed.

(** ** Addition, sign and comparison on specification floats *)



Lemma SFnonneg_inv (x : spec_float) :
  SFnonneg x ->
  (exists s, x = S754_zero s) \/ x = S754_infinity false \/
  (exists m e, x = S754_finite false m e).
Proof.
  unfold SFnonneg, SFleb. destruct x as [s | [] | | [] m e]; simpl; try discriminate; eauto.
Qed.

Lemma SFleb_refl_finite (s : bool) (m : positive) (e : Z) :
  SFleb (S754_finite s m e) (S754_finite s m e) = true.
Proof.
  unfold SFleb, SFcompare.
  destruct s; rewrite Z.compare_refl, Pos.compare_cont_refl; reflexivity.
Qed.

(** The sum [x + d] with [d >= 0] is at least [x], unless it is NaN. *)
Lemma SFadd_ge (x d : spec_float) :
  valid_binary x = true -> SFnonneg d -> SF64add x d <> S754_nan ->
  SFleb x (SF64add x d) = true.
Proof.
  intros Hx Hd Hnan.
  destruct (SFnonneg_inv d Hd) as [[sd ->] | [-> | (md & ed & ->)]].
  - destruct x as [[] | [] | | s m e]; try reflexivity; try (destruct sd; reflexivity).
    + now elim Hnan.
    + apply SFleb_refl_finite.
  - destruct x as [sx | [] | | [] m e]; try reflexivity; now elim Hnan.
  - destruct x as [sx | [] | | sx mx ex]; try reflexivity; try now elim Hnan.
    clear Hnan. cbn [valid_binary] in Hx.
    unfold SF64add, SFadd. set (ez := Z.min ex ed).
    rewrite !shl_align_val by (unfold ez; lia).
    assert (HD : 0 < Zpos md * 2 ^ (ed - ez)).
    { apply Z.mul_pos_pos; [lia |]. apply Z.pow_pos_nonneg; unfold ez; lia. }
    assert (HX : 0 < Zpos mx * 2 ^ (ex - ez)).
    { apply Z.mul_pos_pos; [lia |]. apply Z.pow_pos_nonneg; unfold ez; lia. }
    destruct sx; cbn [cond_Zopp].
    + destruct (- (Zpos mx * 2 ^ (ex - ez)) + Zpos md * 2 ^ (ed - ez)) as [| P | P] eqn:EM;
        cbn [binary_normalize].
      * reflexivity.
      * pose proof (binary_round_sign false P ez) as Hs.
        destruct (binary_round prec emax false P ez) as [s | s | | s m e];
          try contradiction; subst; reflexivity.
      * apply binary_round_down; [assumption | unfold ez; lia | lia].
    + destruct (Zpos mx * 2 ^ (ex - ez) + Zpos md * 2 ^ (ed - ez)) as [| P | P] eqn:EM;
        cbn [binary_normalize]; try lia.
      apply binary_round_up; [assumption | unfold ez; lia | lia].
Qed.

Lemma SFadd_nonneg (x y : spec_float) :
  SFnonneg x -> SFnonneg y -> SFnonneg (SF64add x y).
Proof.
  intros Hx Hy.
  destruct (SFnonneg_inv x Hx) as [[sx ->] | [-> | (mx & ex & ->)]];
  destruct (SFnonneg_inv y Hy) as [[sy ->] | [-> | (my & ey & ->)]];
    try reflexivity; try assumption; try (destruct sx, sy; reflexivity).
  unfold SF64add, SFadd. set (ez := Z.min ex ey). cbn [cond_Zopp].
  destruct (Zpos (fst (shl_align mx ex ez)) + Zpos (fst (shl_align my ey ez)))
    as [| P | P] eqn:EM; cbn [binary_normalize]; try lia.
  pose proof (binary_round_sign false P ez) as Hs.
  destruct (binary_round prec emax false P ez) as [s | s | | s m e];
    try contradiction; subst; reflexivity.
Qed.

(** Comparison is antisymmetric on comparable values. *)
Lemma SFcompare_antisym (x y : spec_float) :
  SFcompare y x = option_map CompOpp (SFcompare x y).
Proof.
  destruct x as [sx | sx | | sx mx ex], y as [sy | sy | | sy my ey];
    try reflexivity; try (destruct sx; reflexivity); try (destruct sy; reflexivity);
    try (destruct sx, sy; reflexivity).
  cbn [SFcompare option_map].
  rewrite !Pos.compare_cont_spec. cbn [Pos.switch_Eq].
  rewrite (Z.compare_antisym ex ey), (Pos.compare_antisym mx my).
  destruct sx, sy; try reflexivity;
    destruct (ex ?= ey); cbn [CompOpp]; try reflexivity;
    destruct (mx ?= my)%positive; reflexivity.
Qed.

Lemma SFleb_total (x y : spec_float) :
  x <> S754_nan -> y <> S754_nan -> SFleb x y = false -> SFleb y x = true.
Proof.
  intros Hx Hy. unfold SFleb. rewrite (SFcompare_antisym x y).
  destruct (SFcompare x y) as [[] |] eqn:E; try discriminate; try reflexivity.
  destruct x, y; try contradiction; try discriminate.
  all: try (destruct s; discriminate).
Qed.

Lemma SFltb_leb (x y : spec_float) : SFltb x y = true -> SFleb x y = true.
Proof. unfold SFltb, SFleb. destruct (SFcompare x y) as [[] |]; auto. Qed.

Lemma SFltb_not_leb (x y : spec_float) : SFltb x y = true -> SFleb y x = false.
Proof.
  unfold SFltb, SFleb. rewrite (SFcompare_antisym x y).
  destruct (SFcompare x y) as [[] |]; auto; discriminate.
Qed.

Lemma SFleb_refl (x : spec_float) : x <> S754_nan -> SFleb x x = true.
Proof.
  destruct x as [s | [] | | s m e]; try reflexivity.
  - now intros H.
  - intros _. apply SFleb_refl_finite.
Qed.

Lemma SFnonneg_trans (x y : spec_float) :
  SFnonneg x -> SFleb x y = true -> SFnonneg y.
Proof.
  intros Hx. destruct (SFnonneg_inv x Hx) as [[sx ->] | [-> | (mx & ex & ->)]];
    destruct y as [sy | [] | | [] my ey]; try reflexivity; try discriminate.
Qed.

(** Values that compare equal stand in the same relation to any other. *)
Lemma SFeqb_compare_l (x y z : spec_float) :
  SFeqb x y = true -> SFcompare x z = SFcompare y z.
Proof.
  unfold SFeqb. destruct (SFcompare x y) as [[] |] eqn:E; try discriminate. intros _.
  destruct x as [sx | sx | | sx mx ex], y as [sy | sy | | sy my ey];
    try discriminate; try (destruct sx; discriminate); try (destruct sy; discriminate).
  - reflexivity.
  - destruct sx, sy; try discriminate; reflexivity.
  - cbn [SFcompare] in E. 
    assert (sx = sy /\ ex = ey /\ mx = my) as (-> & -> & ->); [| reflexivity].
    destruct sx, sy; try discriminate;
      destruct (Z.compare_spec ex ey); try discriminate;
      fold (Pos.compare mx my) in E;
      destruct (Pos.compare_spec mx my); try discriminate; auto.
Qed.


Lemma shr_m_nonneg (mrs : shr_record) (e n : Z) :
  0 <= shr_m mrs -> 0 <= shr_m (fst (shr mrs e n)).
Proof.
  intros H. destruct n as [| p | p]; cbn [shr fst]; try assumption.
  rewrite iter_pos_nat, shr_iter_m by assumption.
  apply Z.div_pos; [assumption |]. apply Z.pow_pos_nonneg; lia.
Qed.

Lemma shr_record_of_loc_m (m : Z) (l : location) :
  shr_m (shr_record_of_loc m l) = m.
Proof. destruct l as [| []]; reflexivity. Qed.

(** [binary_round_aux], as used by the product and the quotient, keeps the
    sign it is given. *)
Lemma binary_round_aux_sign (s : bool) (m e : Z) (l : location) :
  0 <= m ->
  match binary_round_aux prec emax s m e l with
  | S754_zero s' | S754_infinity s' | S754_finite s' _ _ => s' = s
  | S754_nan => False
  end.
Proof.
  intros Hm. rewrite binary_round_aux_finish.
  set (mrs := fst (shr_fexp prec emax m e l)).
  assert (H1 : 0 <= shr_m mrs).
  { apply shr_m_nonneg. now rewrite shr_record_of_loc_m. }
  pose proof (round_nearest_even_bounds (shr_m mrs) (loc_of_shr_record mrs)) as H2.
  set (q := round_nearest_even _ _) in *.
  unfold finish.
  assert (H3 : 0 <= shr_m (fst (shr_fexp prec emax q (snd (shr_fexp prec emax m e l)) loc_Exact))).
  { apply shr_m_nonneg. rewrite shr_record_of_loc_m. lia. }
  destruct (shr_fexp prec emax q _ loc_Exact) as [mrs' e']. cbn [fst] in H3.
  destruct (shr_m mrs') as [| p | p]; try reflexivity; try lia.
  destruct (e' <=? emax - prec); reflexivity.
Qed.

Lemma round_sign_nonneg (r : spec_float) :
  match r with
  | S754_zero s' | S754_infinity s' | S754_finite s' _ _ => s' = false
  | S754_nan => False
  end -> SFnonneg r.
Proof. destruct r; intros H; try contradiction; subst; reflexivity. Qed.

Lemma SFmul_nonneg (x y : spec_float) :
  SFnonneg x -> SFnonneg y -> SF64mul x y <> S754_nan -> SFnonneg (SF64mul x y).
Proof.
  intros Hx Hy Hnan.
  destruct (SFnonneg_inv x Hx) as [[sx ->] | [-> | (mx & ex & ->)]];
  destruct (SFnonneg_inv y Hy) as [[sy ->] | [-> | (my & ey & ->)]];
    try reflexivity; try (now elim Hnan).
  apply round_sign_nonneg. unfold SF64mul, SFmul. cbn [xorb].
  apply binary_round_aux_sign. lia.
Qed.

Lemma SFdiv_nonneg (x : spec_float) (my : positive) (ey : Z) :
  SFnonneg x -> SFnonneg (SF64div x (S754_finite false my ey)).
Proof.
  intros Hx.
  destruct (SFnonneg_inv x Hx) as [[sx ->] | [-> | (mx & ex & ->)]];
    try reflexivity.
  apply round_sign_nonneg. unfold SF64div, SFdiv, SFdiv_core_binary. cbn [xorb].
  set (m' := match _ with Z0 => Zpos mx | Zpos _ => _ | Zneg _ => 0 end).
  assert (Hm' : 0 <= m').
  { unfold m'. destruct (_ - _ - _) as [| p | p]; try lia.
    apply Z.shiftl_nonneg. lia. }
  pose proof (Z.div_pos m' (Zpos my) Hm' ltac:(lia)) as Hq.
  unfold Z.div in Hq. destruct (Z.div_eucl m' (Zpos my)) as [q r].
  apply binary_round_aux_sign. exact Hq.
Qed.


(** Comparison of two finite numbers, spelled out on exponents and
    mantissas. *)
Lemma SFleb_finite (s1 s2 : bool) (m1 m2 : positive) (e1 e2 : Z) :
  SFleb (S754_finite s1 m1 e1) (S754_finite s2 m2 e2) = true <->
  match s1, s2 with
  | true, false => True
  | false, true => False
  | false, false => e1 < e2 \/ (e1 = e2 /\ Zpos m1 <= Zpos m2)
  | true, true => e2 < e1 \/ (e1 = e2 /\ Zpos m2 <= Zpos m1)
  end.
Proof.
  unfold SFleb, SFcompare. rewrite Pos.compare_cont_spec. cbn [Pos.switch_Eq].
  rewrite Pos2Z.inj_compare.
  destruct s1, s2; try (split; [trivial | reflexivity]);
    try (split; [discriminate | contradiction]);
    destruct (Z.compare_spec e1 e2); destruct (Z.compare_spec (Zpos m1) (Zpos m2));
    cbn [CompOpp]; split; intros Hyp; try reflexivity; try discriminate; try lia.
Qed.

Lemma SFleb_trans (x y z : spec_float) :
  SFleb x y = true -> SFleb y z = true -> SFleb x z = true.
Proof.
  destruct x as [sx | sx | | sx mx ex], y as [sy | sy | | sy my ey],
    z as [sz | sz | | sz mz ez];
    try reflexivity; try discriminate;
    try (destruct sx; try reflexivity; try discriminate;
         destruct sy; try reflexivity; try discriminate;
         destruct sz; try reflexivity; discriminate).
  all: try (destruct sx, sy; try reflexivity; discriminate).
  all: try (destruct sy, sz; try reflexivity; discriminate).
  all: try (destruct sx, sz; try reflexivity; discriminate).
  rewrite !SFleb_finite. destruct sx, sy, sz; try tauto; lia.
Qed.

Lemma SFltb_false_leb (x y : spec_float) :
  x <> S754_nan -> y <> S754_nan -> SFltb x y = false -> SFleb y x = true.
Proof.
  intros Hx Hy. unfold SFltb, SFleb. rewrite (SFcompare_antisym x y).
  destruct (SFcompare x y) as [[] |] eqn:E; try discriminate; try reflexivity.
  destruct x, y; try contradiction; try discriminate.
  all: try (destruct s; discriminate).
Qed.

End Arrondi.

(** ** From the specification to the primitive operations *)

Lemma Prim2SF_zero : Prim2SF 0 = S754_zero false.
Proof. reflexivity. Qed.

Lemma is_nan_spec (x : float) : is_nan x = false <-> Prim2SF x <> S754_nan.
Proof.
  unfold is_nan. rewrite eqb_spec, negb_false_iff. unfold SFeqb. split.
  - intros H E. rewrite E in H. discriminate.
  - intros H. pose proof (SFleb_refl (Prim2SF x) H) as Hr. unfold SFleb in Hr.
    pose proof (SFcompare_antisym (Prim2SF x) (Prim2SF x)) as Ha.
    destruct (SFcompare (Prim2SF x) (Prim2SF x)) as [[] |]; try discriminate; reflexivity.
Qed.

Lemma nonneg_spec (x : float) : (0 <=? x) = true <-> SFnonneg (Prim2SF x).
Proof. rewrite leb_spec, Prim2SF_zero. reflexivity. Qed.

Lemma nonneg_not_nan (x : float) : (0 <=? x) = true -> is_nan x = false.
Proof.
  rewrite nonneg_spec, is_nan_spec. intros H E. rewrite E in H. discriminate.
Qed.

Lemma add_not_nan_r (x d : float) : is_nan (x + d) = false -> is_nan d = false.
Proof.
  rewrite !is_nan_spec, add_spec. intros H E. apply H. rewrite E.
  destruct (Prim2SF x); reflexivity.
Qed.

Lemma add_not_nan_l (x d : float) : is_nan (x + d) = false -> is_nan x = false.
Proof.
  rewrite !is_nan_spec, add_spec. intros H E. apply H. rewrite E. reflexivity.
Qed.

(** Adding a non-negative amount never takes a float down. *)
Lemma add_nonneg_ge (x d : float) :
  (0 <=? d) = true -> is_nan (x + d) = false -> (x <=? x + d) = true.
Proof.
  rewrite nonneg_spec, is_nan_spec, leb_spec, add_spec. intros Hd Hnan.
  apply SFadd_ge; [apply Prim2SF_valid | assumption | assumption].
Qed.

Lemma add_nonneg (x y : float) :
  (0 <=? x) = true -> (0 <=? y) = true -> (0 <=? x + y) = true.
Proof. rewrite !nonneg_spec, add_spec. apply SFadd_nonneg. Qed.

Lemma mul_nonneg (x y : float) :
  (0 <=? x) = true -> (0 <=? y) = true -> is_nan (x * y) = false ->
  (0 <=? x * y) = true.
Proof. rewrite !nonneg_spec, is_nan_spec, mul_spec. apply SFmul_nonneg. Qed.

Lemma div_60_nonneg (x : float) : (0 <=? x) = true -> (0 <=? x / 60) = true.
Proof.
  rewrite !nonneg_spec, div_spec. intros H.
  change (Prim2SF 60) with (S754_finite false 8444249301319680 (-47)).
  now apply SFdiv_nonneg.
Qed.

Lemma ltb_leb (x y : float) : (x <? y) = true -> (x <=? y) = true.
Proof. rewrite ltb_spec, leb_spec. apply SFltb_leb. Qed.

Lemma leb_refl (x : float) : is_nan x = false -> (x <=? x) = true.
Proof. rewrite is_nan_spec, leb_spec. apply SFleb_refl. Qed.

Lemma leb_total (x y : float) :
  is_nan x = false -> is_nan y = false -> (x <=? y) = false -> (y <=? x) = true.
Proof. rewrite !is_nan_spec, !leb_spec. apply SFleb_total. Qed.

Lemma ltb_not_leb (x y : float) : (x <? y) = true -> (y <=? x) = false.
Proof. rewrite ltb_spec, leb_spec. apply SFltb_not_leb. Qed.

Lemma eqb_leb_l (x y z : float) :
  (x =? y) = true -> (x <=? z) = true -> (y <=? z) = true.
Proof.
  rewrite eqb_spec, !leb_spec. intros He. unfold SFleb.
  now rewrite (SFeqb_compare_l _ _ (Prim2SF z) He).
Qed.

Lemma leb_trans (x y z : float) :
  (x <=? y) = true -> (y <=? z) = true -> (x <=? z) = true.
Proof. rewrite !leb_spec. apply SFleb_trans. Qed.

Lemma ltb_false_leb (x y : float) :
  is_nan x = false -> is_nan y = false -> (x <? y) = false -> (y <=? x) = true.
Proof. rewrite !is_nan_spec, ltb_spec, leb_spec. apply SFltb_false_leb. Qed.

Lemma mul_comm (x y : float) : x * y = y * x.
Proof.
  apply Prim2SF_inj. rewrite !mul_spec. unfold SF64mul, SFmul.
  destruct (Prim2SF x) as [sx | sx | | sx mx ex],
           (Prim2SF y) as [sy | sy | | sy my ey];
    try reflexivity; try (now rewrite xorb_comm).
  now rewrite xorb_comm, Pos.mul_comm, Z.add_comm.
Qed.

(** ** [min] and [max] on non-negative arguments *)

Lemma min3_cases (a b c : float) : min3 a b c = a \/ min3 a b c = b \/ min3 a b c = c.
Proof. unfold min3. destruct (b <? a), (c <? _); auto. Qed.

Lemma min3_nonneg (a b c : float) :
  (0 <=? a) = true -> (0 <=? b) = true -> (0 <=? c) = true ->
  (0 <=? min3 a b c) = true.
Proof.
  intros Ha Hb Hc. destruct (min3_cases a b c) as [-> | [-> | ->]]; assumption.
Qed.

(** On numbers, [min3] is the least of its three arguments. *)
Lemma min3_minimum (a b c : float) :
  is_nan a = false -> is_nan b = false -> is_nan c = false ->
  (min3 a b c <=? a) = true /\ (min3 a b c <=? b) = true /\
  (min3 a b c <=? c) = true.
Proof.
  intros Ha Hb Hc. unfold min3.
  assert (Hr : exists r, (if b <? a then b else a) = r /\ is_nan r = false /\
                         (r <=? a) = true /\ (r <=? b) = true).
  { destruct (b <? a) eqn:E.
    - exists b. repeat split; auto using ltb_leb, leb_refl.
    - exists a. repeat split; auto using ltb_false_leb, leb_refl. }
  destruct Hr as (r & -> & Hr & Hra & Hrb).
  destruct (c <? r) eqn:E.
  - pose proof (ltb_leb _ _ E) as Hcr.
    repeat split; eauto using leb_trans, leb_refl.
  - repeat split; auto using ltb_false_leb.
Qed.

(** On numbers, [max2] is the greater of its two arguments. *)
Lemma max2_maximum (a b : float) :
  is_nan a = false -> is_nan b = false ->
  (a <=? max2 a b) = true /\ (b <=? max2 a b) = true.
Proof.
  intros Ha Hb. unfold max2. destruct (a <? b) eqn:E.
  - split; auto using ltb_leb, leb_refl.
  - split; auto using ltb_false_leb, leb_refl.
Qed.

Lemma max2_zero_nonneg (x : float) : (0 <=? max2 0 x) = true.
Proof.
  unfold max2. destruct (0 <? x) eqn:E.
  - now apply ltb_leb.
  - reflexivity.
Qed.

(** * The methods of [Vehicule] *)

(** ** Frame lemmas *)

Lemma avancer_conserve (self : Vehicule) (delta_t : float) :
  vitesse (avancer self delta_t) = vitesse self /\
  vitesse_max (avancer self delta_t) = vitesse_max self /\
  route_actuelle (avancer self delta_t) = route_actuelle self /\
  identifiant (avancer self delta_t) = identifiant self.
Proof.
  unfold avancer. destruct (route_actuelle self) as [route |] eqn:E; auto.
  cbn zeta. destruct (longueur route <=? _); cbn; auto.
Qed.

Lemma deplacement_avancer (self : Vehicule) (route : Route) (delta_t d : float) :
  deplacement (avancer self delta_t) route d = deplacement self route d.
Proof.
  unfold deplacement.
  destruct (avancer_conserve self delta_t) as (-> & -> & _). reflexivity.
Qed.

Lemma avancer_position (self : Vehicule) (route : Route) (delta_t : float) :
  route_actuelle self = Some route ->
  position (avancer self delta_t) =
  if longueur route <=? position self + deplacement self route delta_t
  then longueur route
  else position self + deplacement self route delta_t.
Proof.
  intros Hr. unfold avancer, deplacement. rewrite Hr. cbn.
  destruct (longueur route <=? _); reflexivity.
Qed.

(** One step from the end of the route, with a displacement that is not
    negative. *)
Lemma avancer_au_bout (self : Vehicule) (route : Route) (delta_t : float) :
  route_actuelle self = Some route ->
  (position self =? longueur route) = true ->
  (0 <=? deplacement self route delta_t) = true ->
  is_nan (position self + deplacement self route delta_t) = false ->
  position (avancer self delta_t) = longueur route.
Proof.
  intros Hr Heq Hd Hnan. rewrite (avancer_position self route delta_t Hr).
  rewrite (eqb_leb_l _ _ _ Heq (add_nonneg_ge _ _ Hd Hnan)). reflexivity.
Qed.

Lemma deplacement_nonneg (self : Vehicule) (route : Route) (delta_t : float) :
  (0 <=? delta_t) = true ->
  (0 <=? min3 (vitesse self) (limite_vitesse route) (vitesse_max self)) = true ->
  is_nan (deplacement self route delta_t) = false ->
  (0 <=? deplacement self route delta_t) = true.
Proof.
  intros Hdt Hv Hnan. unfold deplacement in *. cbn zeta in *.
  apply mul_nonneg; [assumption | now apply div_60_nonneg | assumption].
Qed.

Lemma avancer_distance (self : Vehicule) (route : Route) (delta_t : float) :
  route_actuelle self = Some route ->
  distance_parcourue (avancer self delta_t) =
  distance_parcourue self + deplacement self route delta_t.
Proof.
  intros Hr. unfold avancer, deplacement. rewrite Hr. cbn zeta.
  destruct (longueur route <=? _); reflexivity.
Qed.

Lemma avancer_temps (self : Vehicule) (route : Route) (delta_t : float) :
  route_actuelle self = Some route ->
  temps_trajet (avancer self delta_t) = temps_trajet self + delta_t.
Proof.
  intros Hr. unfold avancer. rewrite Hr. cbn zeta.
  destruct (longueur route <=? _); reflexivity.
Qed.

Lemma avancer_plusieurs_au_bout (route : Route) (deltas : list float) :
  forall self : Vehicule,
  route_actuelle self = Some route ->
  position self = longueur route ->
  (0 <=? min3 (vitesse self) (limite_vitesse route) (vitesse_max self)) = true ->
  Forall (fun dt => (0 <? dt) = true /\
                    is_nan (longueur route + deplacement self route dt) = false)
    deltas ->
  position (avancer_plusieurs self deltas) = longueur route.
Proof.
  induction deltas as [| dt deltas IH]; intros self Hr Hp Hv Hall.
  - exact Hp.
  - inversion Hall as [| ? ? [Hdt Hnan] Hrest]; subst.
    destruct (avancer_conserve self dt) as (Ev & Em & Er & _).
    cbn [avancer_plusieurs fold_left]. apply IH.
    + now rewrite Er.
    + rewrite <- Hp in Hnan.
      apply avancer_au_bout; try assumption.
      * rewrite Hp. unfold is_nan in Hnan.
        pose proof (add_not_nan_l _ _ Hnan) as Hl. unfold is_nan in Hl.
        rewrite Hp in Hl. now apply negb_false_iff in Hl.
      * apply deplacement_nonneg; [now apply ltb_leb | assumption |].
        now apply add_not_nan_r with (x := position self).
    + now rewrite Ev, Em.
    + eapply Forall_impl; [| exact Hrest].
      intros d [H1 H2]. split; [assumption |]. now rewrite deplacement_avancer.
Qed.

(** ** The constructor *)

Lemma init_spec (n : N) (vitesse_initiale position_initiale : float)
    (route : option Route) :
  let v := snd (init n vitesse_initiale position_initiale route) in
  fst (init n vitesse_initiale position_initiale route) = N.succ n /\
  position v = position_initiale /\ vitesse v = vitesse_initiale /\
  route_actuelle v = route /\ vitesse_max v = 130 /\
  distance_parcourue v = 0 /\ temps_trajet v = 0.
Proof. cbn. repeat split. Qed.

Lemma init_identifiant :
  identifiant (snd (init 0 0 0 None)) = "VEH_0001"%string /\
  identifiant (snd (init 41 0 0 None)) = "VEH_0042"%string /\
  identifiant (snd (init 12344 0 0 None)) = "VEH_12345"%string.
Proof. repeat split; reflexivity. Qed.

(** ** An infinite step

    The operations are those of binary64, so a step can produce a value that
    is not a number.  A vehicle built with the default speed 0.0 and advanced
    by an infinite [delta_t] gets the displacement [0 * inf = nan]: its
    position and odometer become NaN, which compares neither below nor above
    anything.  The statements on order below therefore ask for numbers. *)
Lemma avancer_pas_infini :
  (0 <? infinity) = true /\
  (position vehicule_arrete =? longueur route_a1) = true /\
  (0 <=? min3 (vitesse vehicule_arrete) (limite_vitesse route_a1)
           (vitesse_max vehicule_arrete)) = true /\
  is_nan (position (avancer vehicule_arrete infinity)) = true /\
  (position (avancer vehicule_arrete infinity) <=? longueur route_a1) = false /\
  is_nan (distance_parcourue (avancer vehicule_arrete infinity)) = true /\
  (distance_parcourue vehicule_arrete <=?
   distance_parcourue (avancer vehicule_arrete infinity)) = false.
Proof. repeat split; reflexivity. Qed.

(** * The claims *)

(** C1. With a current route, [avancer] takes the effective speed
    [min(vitesse, route.limite_vitesse, vitesse_max)], adds
    [vitesse_effective * (delta_t / 60)] to the position and to the odometer,
    and adds [delta_t], in minutes, to the travel time.  The position so
    obtained is then clamped at the route's length; no other attribute
    changes. *)
Theorem avancer_spec (self : Vehicule) (route : Route) (delta_t : float) :
  route_actuelle self = Some route ->
  let vitesse_effective :=
    min3 (vitesse self) (limite_vitesse route) (vitesse_max self) in
  let d := vitesse_effective * (delta_t / 60) in
  let avance :=
    mkVehicule (position self + d) (vitesse self) (vitesse_max self)
      (distance_parcourue self + d) (temps_trajet self + delta_t)
      (route_actuelle self) (identifiant self) in
  avancer self delta_t =
    (if longueur route <=? position avance
     then set_position avance (longueur route) else avance) /\
  distance_parcourue (avancer self delta_t) = distance_parcourue self + d /\
  temps_trajet (avancer self delta_t) = temps_trajet self + delta_t /\
  ((longueur route <=? position self + d) = false ->
   position (avancer self delta_t) = position self + d).
Proof.
  intros Hr eff d avance. unfold avancer. rewrite Hr. cbn zeta.
  fold eff. fold d. cbn [position set_position set_distance_parcourue
    set_temps_trajet vitesse vitesse_max distance_parcourue temps_trajet
    route_actuelle identifiant].
  split; [reflexivity |].
  destruct (longueur route <=? position self + d) eqn:E; cbn;
    repeat split; try reflexivity; discriminate.
Qed.

(** [vehicule_a1], at 50 km/h for 6 minutes, covers 5 km. *)
Lemma avancer_spec_temoin :
  distance_parcourue (avancer vehicule_a1 6) = 5 /\
  temps_trajet (avancer vehicule_a1 6) = 6 /\
  position (avancer vehicule_a1 6) = 5.
Proof.
  destruct (avancer_spec vehicule_a1 route_a1 6 eq_refl) as (_ & Hd & Ht & Hp).
  split; [exact Hd | split; [exact Ht | exact (Hp eq_refl)]].
Defined.

(** C2, as the claim states it, fails: a leader whose position is below 0 is
    taken for an absent one.  With the leader 0.03125 km ahead, at -0.5 km,
    the three-zone rule brakes to 40 km/h while [ajuster_vitesse]
    accelerates to 60 km/h. *)
Lemma ajuster_vitesse_trois_zones_contre :
  route_actuelle vehicule_suiveur_amont = Some route_a1 /\
  vitesse (ajuster_vitesse vehicule_suiveur_amont (Some vehicule_en_amont)
             distance_securite_defaut) = 60 /\
  spec_trois_zones vehicule_suiveur_amont route_a1 vehicule_en_amont
    distance_securite_defaut = 40 /\
  vitesse (ajuster_vitesse vehicule_suiveur_amont (Some vehicule_en_amont)
             distance_securite_defaut) <>
  spec_trois_zones vehicule_suiveur_amont route_a1 vehicule_en_amont
    distance_securite_defaut.
Proof.
  repeat split; try reflexivity.
  intros H. apply (f_equal (fun x => x <? 50)) in H. vm_compute in H. discriminate.
Qed.

(** C2, amended.  With a current route and a leader whose position is not
    below 0, [ajuster_vitesse] assigns to the speed what the three-zone rule
    on the gap [devant.position - self.position] gives, and changes nothing
    else. *)
Theorem ajuster_vitesse_trois_zones (self : Vehicule) (route : Route)
    (devant : Vehicule) (distance_securite : float) :
  route_actuelle self = Some route ->
  (position devant <? 0) = false ->
  ajuster_vitesse self (Some devant) distance_securite =
  set_vitesse self (spec_trois_zones self route devant distance_securite).
Proof.
  intros Hr Hp. unfold ajuster_vitesse, spec_trois_zones. rewrite Hr, Hp. cbn zeta.
  rewrite (mul_comm 2 distance_securite).
  destruct (position devant - position self <? distance_securite); [reflexivity |].
  destruct (position devant - position self <? distance_securite * 2); reflexivity.
Qed.

(** [vehicule_rapide] is 0.0625 km ahead of [vehicule_a1], in the middle
    zone: the follower takes the leader's 200 km/h. *)
Lemma ajuster_vitesse_trois_zones_temoin :
  ajuster_vitesse vehicule_a1 (Some vehicule_rapide) distance_securite_defaut =
  set_vitesse vehicule_a1 200.
Proof.
  exact (ajuster_vitesse_trois_zones vehicule_a1 route_a1 vehicule_rapide
           distance_securite_defaut eq_refl eq_refl).
Defined.

(** C3, as the claim states it, fails: [vehicule_marche_arriere] stands at
    the end of its route with the speed -60 km/h it was built with; a step of
    60 minutes moves it back to -50 km. *)
Lemma avancer_position_bornee_contre :
  route_actuelle vehicule_marche_arriere = Some route_a1 /\
  (0 <? 60) = true /\
  (position vehicule_marche_arriere =? longueur route_a1) = true /\
  position (avancer vehicule_marche_arriere 60) = -50 /\
  (position (avancer vehicule_marche_arriere 60) =? longueur route_a1) = false.
Proof. repeat split; reflexivity. Qed.

(** C3, amended.  With a current route and [delta_t > 0], after [avancer]
    the position is never above the route's length, and it is at most the
    length whenever the length and the position before clamping are numbers
    (not NaN).  Once the position equals the length, a call whose effective
    speed is not negative and whose sum [position + deplacement] is a number
    leaves the position at the length, and so does any sequence of such
    calls. *)
Theorem avancer_position_bornee (self : Vehicule) (route : Route)
    (delta_t : float) :
  route_actuelle self = Some route ->
  (0 <? delta_t) = true ->
  let d := deplacement self route delta_t in
  let vitesse_effective :=
    min3 (vitesse self) (limite_vitesse route) (vitesse_max self) in
  (longueur route <? position (avancer self delta_t)) = false /\
  (is_nan (longueur route) = false -> is_nan (position self + d) = false ->
   (position (avancer self delta_t) <=? longueur route) = true) /\
  ((position self =? longueur route) = true ->
   (0 <=? vitesse_effective) = true ->
   is_nan (position self + d) = false ->
   position (avancer self delta_t) = longueur route) /\
  (position self = longueur route ->
   (0 <=? vitesse_effective) = true ->
   forall deltas : list float,
   Forall (fun dt => (0 <? dt) = true /\
                     is_nan (longueur route + deplacement self route dt) = false)
     deltas ->
   position (avancer_plusieurs self deltas) = longueur route).
Proof.
  intros Hr Hdt d eff. pose proof (avancer_position self route delta_t Hr) as Hpos.
  fold d in Hpos. repeat split.
  1, 2: rewrite Hpos.
  - destruct (longueur route <=? position self + d) eqn:E.
    + destruct (longueur route <? longueur route) eqn:El; [| reflexivity].
      pose proof (ltb_leb _ _ El) as H1. pose proof (ltb_not_leb _ _ El) as H2.
      congruence.
    + destruct (longueur route <? position self + d) eqn:El; [| reflexivity].
      pose proof (ltb_leb _ _ El). congruence.
  - intros HL Hsum. destruct (longueur route <=? position self + d) eqn:E.
    + now apply leb_refl.
    + now apply leb_total.
  - intros Heq Hv Hsum.
    apply avancer_au_bout; try assumption.
    apply deplacement_nonneg; [now apply ltb_leb | assumption |].
    now apply add_not_nan_r with (x := position self).
  - intros Hp Hv deltas Hall.
    now apply avancer_plusieurs_au_bout.
Qed.

(** [vehicule_a1] stays below the end of the route, and [vehicule_au_bout]
    stays at the end, over one step and over three. *)
Lemma avancer_position_bornee_temoin :
  (position (avancer vehicule_a1 6) <=? longueur route_a1) = true /\
  position (avancer vehicule_au_bout 6) = longueur route_a1 /\
  position (avancer_plusieurs vehicule_au_bout [6; 1; 30]) = longueur route_a1.
Proof.
  destruct (avancer_position_bornee vehicule_a1 route_a1 6 eq_refl eq_refl)
    as (_ & H1 & _).
  destruct (avancer_position_bornee vehicule_au_bout route_a1 6 eq_refl eq_refl)
    as (_ & _ & H2 & H3).
  split; [exact (H1 eq_refl eq_refl) |].
  split; [exact (H2 eq_refl eq_refl eq_refl) |].
  apply (H3 eq_refl eq_refl).
  repeat (constructor; [split; reflexivity |]). constructor.
Defined.

(** C4.  [changer_de_route(None)] returns [False] and changes nothing, and
    makes no call into [Route].  [changer_de_route(nouvelle_route)] returns
    [True], sets the position to 0.0 and the current route to the new one,
    keeps the speed, the odometer, the travel time (and the maximal speed
    and the identifier), and calls [retirer_vehicule] on the former route,
    only when there was one, then [ajouter_vehicule] on the new route. *)
Theorem changer_de_route_spec (self : Vehicule) (journal : list appel) :
  changer_de_route self None journal = (false, self, journal) /\
  forall nouvelle : Route,
  exists apres : Vehicule,
    changer_de_route self (Some nouvelle) journal =
      (true, apres,
       journal ++
       match route_actuelle self with
       | Some ancienne => [Retirer_vehicule ancienne self]
       | None => []
       end ++ [Ajouter_vehicule nouvelle apres]) /\
    position apres = 0 /\
    route_actuelle apres = Some nouvelle /\
    vitesse apres = vitesse self /\
    distance_parcourue apres = distance_parcourue self /\
    temps_trajet apres = temps_trajet self /\
    vitesse_max apres = vitesse_max self /\
    identifiant apres = identifiant self.
Proof.
  split; [reflexivity |]. intros nouvelle.
  exists (set_position (set_route_actuelle self (Some nouvelle)) 0).
  split; [| repeat split].
  unfold changer_de_route. destruct (route_actuelle self) as [ancienne |].
  - now rewrite <- app_assoc.
  - reflexivity.
Qed.

(** C5, as the claim states it, fails: with the road free ahead, the vehicle
    built with the speed -60 km/h is assigned [min(-60 + 10, 90, 130)], that
    is -50 km/h. *)
Lemma ajuster_vitesse_positive_contre :
  route_actuelle vehicule_marche_arriere = Some route_a1 /\
  vitesse (ajuster_vitesse vehicule_marche_arriere None
             distance_securite_defaut) = -50 /\
  (0 <=? vitesse (ajuster_vitesse vehicule_marche_arriere None
                    distance_securite_defaut)) = false.
Proof. repeat split; reflexivity. Qed.

(** C5, amended.  [ajuster_vitesse] keeps the speed at or above 0 whenever
    the prior speed, the maximal speed, the route's speed limit and the
    leader's speed (when there is a leader) are at or above 0; and the
    braking branch, [max(0.0, v_devant - 10)], is at or above 0 whatever the
    leader's speed. *)
Theorem ajuster_vitesse_positive (self : Vehicule)
    (vehicule_devant : option Vehicule) (distance_securite : float) :
  (0 <=? vitesse self) = true ->
  (0 <=? vitesse_max self) = true ->
  (forall route, route_actuelle self = Some route ->
                 (0 <=? limite_vitesse route) = true) ->
  (forall devant, vehicule_devant = Some devant ->
                  (0 <=? vitesse devant) = true) ->
  (0 <=? vitesse (ajuster_vitesse self vehicule_devant distance_securite)) = true /\
  (forall v_devant : float, (0 <=? max2 0 (v_devant - 10)) = true).
Proof.
  intros Hv Hm Hl Hd. split; [| intros v; apply max2_zero_nonneg].
  unfold ajuster_vitesse. destruct (route_actuelle self) as [route |]; [| exact Hv].
  specialize (Hl route eq_refl). cbn zeta.
  assert (Hacc : forall k, (0 <=? k) = true ->
            (0 <=? min3 (vitesse self + k) (limite_vitesse route)
                     (vitesse_max self)) = true).
  { intros k Hk. apply min3_nonneg; try assumption. now apply add_nonneg. }
  destruct (_ <? 0); cbn [vitesse set_vitesse]; [now apply Hacc |].
  destruct (_ <? distance_securite); cbn [vitesse set_vitesse];
    [apply max2_zero_nonneg |].
  destruct (_ <? distance_securite * 2); cbn [vitesse set_vitesse];
    [| now apply Hacc].
  destruct vehicule_devant as [devant |]; [now apply Hd | reflexivity].
Qed.

(** All speeds of [vehicule_a1], [vehicule_rapide] and [route_a1] are
    positive. *)
Lemma ajuster_vitesse_positive_temoin :
  (0 <=? vitesse (ajuster_vitesse vehicule_a1 (Some vehicule_rapide)
                    distance_securite_defaut)) = true.
Proof.
  refine (proj1 (ajuster_vitesse_positive vehicule_a1 (Some vehicule_rapide)
                   distance_securite_defaut eq_refl eq_refl _ _)).
  - intros route H. injection H as <-. reflexivity.
  - intros devant H. injection H as <-. reflexivity.
Defined.

(** C6, as the claim states it, fails: a step of -6 minutes takes the
    odometer of [vehicule_a1] from 0 to -5 km and its travel time from 0 to
    -6 minutes. *)
Lemma avancer_monotone_contre :
  distance_parcourue vehicule_a1 = 0 /\
  distance_parcourue (avancer vehicule_a1 (-6)) = -5 /\
  (distance_parcourue vehicule_a1 <=?
   distance_parcourue (avancer vehicule_a1 (-6))) = false /\
  temps_trajet vehicule_a1 = 0 /\
  temps_trajet (avancer vehicule_a1 (-6)) = -6 /\
  (temps_trajet vehicule_a1 <=? temps_trajet (avancer vehicule_a1 (-6))) = false.
Proof. repeat split; reflexivity. Qed.

(** C6, amended.  For every vehicle and every [delta_t >= 0], if the
    effective speed [min(vitesse, route.limite_vitesse, vitesse_max)] is at
    or above 0 (when there is a current route) and the odometer and the
    travel time after the call are numbers (not NaN), then both are greater
    than or equal to their values before the call. *)
Theorem avancer_monotone (self : Vehicule) (delta_t : float) :
  (0 <=? delta_t) = true ->
  (forall route, route_actuelle self = Some route ->
     (0 <=? min3 (vitesse self) (limite_vitesse route) (vitesse_max self)) = true) ->
  is_nan (distance_parcourue (avancer self delta_t)) = false ->
  is_nan (temps_trajet (avancer self delta_t)) = false ->
  (distance_parcourue self <=? distance_parcourue (avancer self delta_t)) = true /\
  (temps_trajet self <=? temps_trajet (avancer self delta_t)) = true.
Proof.
  intros Hdt Hv. destruct (route_actuelle self) as [route |] eqn:Hr.
  - rewrite (avancer_distance self route delta_t Hr),
      (avancer_temps self route delta_t Hr).
    intros Hnd Hnt. split.
    + apply add_nonneg_ge; [| assumption].
      apply deplacement_nonneg; [assumption | now apply Hv |].
      now apply add_not_nan_r with (x := distance_parcourue self).
    + now apply add_nonneg_ge.
  - unfold avancer. rewrite Hr. intros Hnd Hnt. split; now apply leb_refl.
Qed.

(** [vehicule_a1] advanced by 6 minutes. *)
Lemma avancer_monotone_temoin :
  (distance_parcourue vehicule_a1 <=?
   distance_parcourue (avancer vehicule_a1 6)) = true /\
  (temps_trajet vehicule_a1 <=? temps_trajet (avancer vehicule_a1 6)) = true.
Proof.
  refine (avancer_monotone vehicule_a1 6 eq_refl _ eq_refl eq_refl).
  intros route H. injection H as <-. reflexivity.
Defined.

(** C7.  Without a current route, [avancer], for any [delta_t], and
    [ajuster_vitesse], for any leader and any safety distance, leave every
    attribute of the vehicle as it was. *)
Theorem sans_route_sans_effet (self : Vehicule) :
  route_actuelle self = None ->
  (forall delta_t : float, avancer self delta_t = self) /\
  (forall (vehicule_devant : option Vehicule) (distance_securite : float),
     ajuster_vitesse self vehicule_devant distance_securite = self).
Proof.
  intros Hr. split; intros; [unfold avancer | unfold ajuster_vitesse];
    now rewrite Hr.
Qed.

(** [vehicule_libre] has no route. *)
Lemma sans_route_sans_effet_temoin :
  avancer vehicule_libre 6 = vehicule_libre /\
  ajuster_vitesse vehicule_libre (Some vehicule_rapide) distance_securite_defaut =
  vehicule_libre.
Proof.
  destruct (sans_route_sans_effet vehicule_libre eq_refl) as [Ha Hj].
  split; [apply Ha | apply Hj].
Defined.

(** C8.  [est_arrive] returns [True] exactly when there is a current route
    and [position >= route.longueur]; it returns [False] whenever there is
    no current route; and it leaves the vehicle as it was. *)
Theorem est_arrive_spec (self : Vehicule) :
  (fst (est_arrive self) = true <->
   exists route, route_actuelle self = Some route /\
                 (longueur route <=? position self) = true) /\
  (route_actuelle self = None -> fst (est_arrive self) = false) /\
  snd (est_arrive self) = self.
Proof.
  unfold est_arrive. destruct (route_actuelle self) as [route |]; cbn [fst snd].
  - repeat split.
    + intros H. exists route. now split.
    + intros (r & [= <-] & H). exact H.
    + discriminate.
  - repeat split.
    + discriminate.
    + intros (r & H & _). discriminate.
Qed.

(** C9.  With a current route, a leader whose position is strictly below 0
    is treated as no leader at all: the speed becomes
    [min(vitesse + 10, route.limite_vitesse, vitesse_max)], nothing else
    changes, and the gap to the leader is not looked at. *)
Theorem ajuster_vitesse_devant_negatif (self : Vehicule) (route : Route)
    (devant : Vehicule) (distance_securite : float) :
  route_actuelle self = Some route ->
  (position devant <? 0) = true ->
  ajuster_vitesse self (Some devant) distance_securite =
    set_vitesse self
      (min3 (vitesse self + 10) (limite_vitesse route) (vitesse_max self)) /\
  ajuster_vitesse self (Some devant) distance_securite =
    ajuster_vitesse self None distance_securite.
Proof.
  intros Hr Hp. unfold ajuster_vitesse. rewrite Hr, Hp.
  change (-1 <? 0) with true. split; reflexivity.
Qed.

(** [vehicule_en_amont], the leader, stands at -0.5 km. *)
Lemma ajuster_vitesse_devant_negatif_temoin :
  ajuster_vitesse vehicule_suiveur_amont (Some vehicule_en_amont)
    distance_securite_defaut =
  set_vitesse vehicule_suiveur_amont 60.
Proof.
  exact (proj1 (ajuster_vitesse_devant_negatif vehicule_suiveur_amont route_a1
                  vehicule_en_amont distance_securite_defaut eq_refl eq_refl)).
Defined.

(** C10.  [ajuster_vitesse] does not cap the stored speed.  With a current
    route and a leader (at a position that is not below 0) whose gap lies in
    [[distance_securite, 2 * distance_securite)] and whose speed exceeds both
    the follower's maximal speed and the route's speed limit, the follower's
    speed becomes the leader's speed, strictly above both caps. *)
Theorem ajuster_vitesse_non_plafonnee (self : Vehicule) (route : Route)
    (devant : Vehicule) (distance_securite : float) :
  route_actuelle self = Some route ->
  (position devant <? 0) = false ->
  (distance_securite <=? position devant - position self) = true ->
  (position devant - position self <? 2 * distance_securite) = true ->
  (vitesse_max self <? vitesse devant) = true ->
  (limite_vitesse route <? vitesse devant) = true ->
  let apres := ajuster_vitesse self (Some devant) distance_securite in
  vitesse apres = vitesse devant /\
  (vitesse_max apres <? vitesse apres) = true /\
  (limite_vitesse route <? vitesse apres) = true /\
  route_actuelle apres = Some route.
Proof.
  intros Hr Hp Hlo Hhi Hm Hl apres.
  assert (Ha : apres = set_vitesse self (vitesse devant)).
  { unfold apres, ajuster_vitesse. rewrite Hr, Hp. cbn zeta.
    rewrite <- (mul_comm 2 distance_securite), Hhi.
    destruct (position devant - position self <? distance_securite) eqn:E;
      [| reflexivity].
    apply ltb_not_leb in E. congruence. }
  rewrite Ha. cbn. auto.
Qed.

(** [vehicule_a1] behind [vehicule_rapide]: 200 km/h, above the maximal
    speed 130 and the limit 90. *)
Lemma ajuster_vitesse_non_plafonnee_temoin :
  vitesse (ajuster_vitesse vehicule_a1 (Some vehicule_rapide)
             distance_securite_defaut) = 200 /\
  (130 <? 200) = true /\ (90 <? 200) = true.
Proof.
  destruct (ajuster_vitesse_non_plafonnee vehicule_a1 route_a1 vehicule_rapide
              distance_securite_defaut eq_refl eq_refl eq_refl eq_refl eq_refl
              eq_refl) as (H1 & H2 & H3 & _).
  split; [exact H1 | split; [exact H2 | exact H3]].
Defined.

(** * Further properties of the methods *)

(** ** Identifiers *)










(** ** More on binary64 *)

Lemma SFleb_not_nan (x y : spec_float) :
  SFleb x y = true -> x <> S754_nan /\ y <> S754_nan.
Proof.
  unfold SFleb. destruct x, y; cbn; try discriminate; split; discriminate.
Qed.

(** Adding a finite number to a number gives a number. *)
Lemma SFadd_finite_not_nan (x : spec_float) (s : bool) (m : positive) (e : Z) :
  x <> S754_nan -> SF64add x (S754_finite s m e) <> S754_nan.
Proof.
  intros Hx. destruct x as [sx | sx | | sx mx ex]; try discriminate;
    [contradiction |].
  unfold SF64add, SFadd.
  destruct (_ + _)%Z as [| P | P]; cbn [binary_normalize]; [discriminate | |].
  - pose proof (binary_round_sign false P (Z.min ex e)) as H.
    destruct (binary_round _ _ _ _ _); [discriminate .. | contradiction | discriminate].
  - pose proof (binary_round_sign true P (Z.min ex e)) as H.
    destruct (binary_round _ _ _ _ _); [discriminate .. | contradiction | discriminate].
Qed.

Lemma leb_not_nan (x y : float) :
  (x <=? y) = true -> is_nan x = false /\ is_nan y = false.
Proof. rewrite leb_spec, !is_nan_spec. apply SFleb_not_nan. Qed.

Lemma add_10_not_nan (x : float) : is_nan x = false -> is_nan (x + 10) = false.
Proof.
  rewrite !is_nan_spec, add_spec.
  change (Prim2SF 10) with (S754_finite false 5629499534213120 (-49)).
  apply SFadd_finite_not_nan.
Qed.

Lemma add_5_not_nan (x : float) : is_nan x = false -> is_nan (x + 5) = false.
Proof.
  rewrite !is_nan_spec, add_spec.
  change (Prim2SF 5) with (S754_finite false 5629499534213120 (-50)).
  apply SFadd_finite_not_nan.
Qed.

(** The speed [min(v + k, L, M)] of the accelerating branches, on numbers:
    it is at most each of the three, and it is at least one of the caps [L]
    and [M] as soon as [v] is. *)
Lemma min3_acceleration (v k L M : float) :
  (0 <=? k) = true -> is_nan (v + k) = false ->
  is_nan L = false -> is_nan M = false ->
  (min3 (v + k) L M <=? v + k) = true /\
  (min3 (v + k) L M <=? L) = true /\
  (min3 (v + k) L M <=? M) = true /\
  ((L <=? v) = true \/ (M <=? v) = true ->
   (L <=? min3 (v + k) L M) = true \/ (M <=? min3 (v + k) L M) = true).
Proof.
  intros Hk Ha HL HM.
  destruct (min3_minimum _ _ _ Ha HL HM) as (H1 & H2 & H3).
  repeat split; try assumption. intros Hcap.
  pose proof (add_nonneg_ge v k Hk Ha) as Hva.
  destruct (min3_cases (v + k) L M) as [-> | [-> | ->]].
  - destruct Hcap as [Hc | Hc]; [left | right]; eapply leb_trans; eauto.
  - left. now apply leb_refl.
  - right. now apply leb_refl.
Qed.

(** ** Frames *)

Lemma ajuster_vitesse_cadre (self : Vehicule) (devant : option Vehicule)
    (ds : float) :
  ajuster_vitesse self devant ds =
  set_vitesse self (vitesse (ajuster_vitesse self devant ds)).
Proof.
  unfold ajuster_vitesse. destruct (route_actuelle self) as [route |].
  - cbn zeta. destruct (_ <? 0); [reflexivity |].
    destruct (_ <? ds); [reflexivity |].
    destruct (_ <? ds * 2); reflexivity.
  - now destruct self.
Qed.

(** X3.  [ajuster_vitesse] writes to no attribute but the speed: the
    position, the maximal speed, the odometer, the travel time, the route
    and the identifier are those before the call, and so is the answer of
    [est_arrive]. *)
Theorem ajuster_vitesse_ne_touche_que_vitesse (self : Vehicule)
    (devant : option Vehicule) (ds : float) :
  let apres := ajuster_vitesse self devant ds in
  position apres = position self /\
  vitesse_max apres = vitesse_max self /\
  distance_parcourue apres = distance_parcourue self /\
  temps_trajet apres = temps_trajet self /\
  route_actuelle apres = route_actuelle self /\
  identifiant apres = identifiant self /\
  fst (est_arrive apres) = fst (est_arrive self).
Proof.
  cbn zeta. rewrite (ajuster_vitesse_cadre self devant ds).
  unfold est_arrive. cbn. repeat split.
  destruct (route_actuelle self); reflexivity.
Qed.

(** X4.  Once a vehicle has a route, no method takes it away: [avancer] and
    [ajuster_vitesse] keep the route, and [changer_de_route] leaves the
    requested route, or the former one when the request is [None]. *)
Theorem route_jamais_retiree (self : Vehicule) (route : Route) :
  route_actuelle self = Some route ->
  (forall delta_t, route_actuelle (avancer self delta_t) = Some route) /\
  (forall devant ds, route_actuelle (ajuster_vitesse self devant ds) = Some route) /\
  (forall nouvelle_route journal,
     route_actuelle (snd (fst (changer_de_route self nouvelle_route journal))) =
     Some match nouvelle_route with
          | Some nouvelle => nouvelle
          | None => route
          end).
Proof.
  intros Hr. repeat split.
  - intros dt. destruct (avancer_conserve self dt) as (_ & _ & -> & _). exact Hr.
  - intros devant ds. rewrite ajuster_vitesse_cadre. exact Hr.
  - intros [nouvelle |] journal; [reflexivity | exact Hr].
Qed.

Lemma route_jamais_retiree_temoin :
  route_actuelle (avancer vehicule_a1 6) = Some route_a1 /\
  route_actuelle (snd (fst (changer_de_route vehicule_a1 None []))) =
  Some route_a1.
Proof.
  destruct (route_jamais_retiree vehicule_a1 route_a1 eq_refl) as (H1 & _ & H3).
  split; [apply H1 | apply (H3 None [])].
Defined.

(** ** Arrival *)

Lemma est_arrive_avancer (self : Vehicule) (route : Route) (delta_t : float) :
  route_actuelle self = Some route ->
  fst (est_arrive (avancer self delta_t)) =
  (longueur route <=? position (avancer self delta_t)).
Proof.
  intros Hr. destruct (avancer_conserve self delta_t) as (_ & _ & Er & _).
  unfold est_arrive. now rewrite Er, Hr.
Qed.

(** X5.  A vehicle that [est_arrive] reports arrived right after [avancer]
    stands exactly at the route's length; and when the length is a number,
    it is reported arrived exactly when the position before clamping had
    reached the length. *)
Theorem est_arrive_apres_avancer (self : Vehicule) (route : Route)
    (delta_t : float) :
  route_actuelle self = Some route ->
  (fst (est_arrive (avancer self delta_t)) = true ->
   position (avancer self delta_t) = longueur route) /\
  (is_nan (longueur route) = false ->
   fst (est_arrive (avancer self delta_t)) =
   (longueur route <=? position self + deplacement self route delta_t)).
Proof.
  intros Hr. rewrite (est_arrive_avancer self route delta_t Hr).
  rewrite (avancer_position self route delta_t Hr).
  destruct (longueur route <=? position self + deplacement self route delta_t) eqn:E.
  - split; [reflexivity |]. intros HL. now apply leb_refl.
  - split; [congruence | intros _; exact E].
Qed.

(** Twelve minutes at 50 km/h reach the end of the 10 km of [route_a1];
    six minutes do not. *)
Lemma est_arrive_apres_avancer_temoin :
  position (avancer vehicule_a1 12) = longueur route_a1 /\
  fst (est_arrive (avancer vehicule_a1 6)) = false.
Proof.
  destruct (est_arrive_apres_avancer vehicule_a1 route_a1 12 eq_refl) as [H1 _].
  destruct (est_arrive_apres_avancer vehicule_a1 route_a1 6 eq_refl) as [_ H2].
  split; [exact (H1 eq_refl) | exact (H2 eq_refl)].
Defined.

(** X6.  Arrival is stable: a vehicle at or beyond the end of its route,
    advanced by [delta_t >= 0] with an effective speed that is not negative
    (and a sum [position + deplacement] that is a number), is put exactly at
    the route's length and is still reported arrived. *)
Theorem est_arrive_stable (self : Vehicule) (route : Route) (delta_t : float) :
  route_actuelle self = Some route ->
  fst (est_arrive self) = true ->
  (0 <=? delta_t) = true ->
  (0 <=? min3 (vitesse self) (limite_vitesse route) (vitesse_max self)) = true ->
  is_nan (position self + deplacement self route delta_t) = false ->
  position (avancer self delta_t) = longueur route /\
  fst (est_arrive (avancer self delta_t)) = true.
Proof.
  intros Hr Ha Hdt Hv Hnan.
  assert (HL : (longueur route <=? position self) = true).
  { unfold est_arrive in Ha. now rewrite Hr in Ha. }
  assert (Hd : (0 <=? deplacement self route delta_t) = true).
  { apply deplacement_nonneg; try assumption.
    now apply add_not_nan_r with (x := position self). }
  assert (Hc : (longueur route <=? position self + deplacement self route delta_t)
               = true).
  { apply leb_trans with (1 := HL). now apply add_nonneg_ge. }
  rewrite (est_arrive_avancer self route delta_t Hr).
  rewrite (avancer_position self route delta_t Hr), Hc. split; [reflexivity |].
  apply leb_refl. now destruct (leb_not_nan _ _ HL).
Qed.

(** [vehicule_au_dela] stands beyond the end of [route_n7]; the next step
    puts it at 5 km. *)
Lemma est_arrive_stable_temoin :
  position (avancer vehicule_au_dela 6) = 5 /\
  fst (est_arrive (avancer vehicule_au_dela 6)) = true.
Proof.
  exact (est_arrive_stable vehicule_au_dela route_n7 6 eq_refl eq_refl eq_refl
           eq_refl eq_refl).
Defined.

(** X7.  A transfer to a route of positive length clears the arrival: right
    after [changer_de_route], [est_arrive] answers [False], whatever the
    state of the vehicle before. *)
Theorem changer_de_route_pas_arrive (self : Vehicule) (nouvelle : Route)
    (journal : list appel) :
  (0 <? longueur nouvelle) = true ->
  fst (est_arrive (snd (fst (changer_de_route self (Some nouvelle) journal)))) =
  false.
Proof.
  intros H. cbn. now apply ltb_not_leb.
Qed.

Lemma changer_de_route_pas_arrive_temoin :
  fst (est_arrive vehicule_au_bout) = true /\
  fst (est_arrive
         (snd (fst (changer_de_route vehicule_au_bout (Some route_n7) [])))) =
  false.
Proof.
  split; [reflexivity |].
  exact (changer_de_route_pas_arrive vehicule_au_bout route_n7 [] eq_refl).
Defined.

(** ** Speeds *)

(** X8.  When the speed, the route's limit and the maximal speed are
    numbers, the effective speed [avancer] multiplies by the time is one of
    the three and is at most each of them. *)
Theorem avancer_vitesse_effective (self : Vehicule) (route : Route)
    (delta_t : float) :
  route_actuelle self = Some route ->
  is_nan (vitesse self) = false ->
  is_nan (limite_vitesse route) = false ->
  is_nan (vitesse_max self) = false ->
  exists vitesse_effective : float,
    distance_parcourue (avancer self delta_t) =
      distance_parcourue self + vitesse_effective * (delta_t / 60) /\
    (vitesse_effective <=? vitesse self) = true /\
    (vitesse_effective <=? limite_vitesse route) = true /\
    (vitesse_effective <=? vitesse_max self) = true /\
    (vitesse_effective = vitesse self \/
     vitesse_effective = limite_vitesse route \/
     vitesse_effective = vitesse_max self).
Proof.
  intros Hr Hv Hl Hm.
  exists (min3 (vitesse self) (limite_vitesse route) (vitesse_max self)).
  split; [exact (avancer_distance self route delta_t Hr) |].
  destruct (min3_minimum _ _ _ Hv Hl Hm) as (H1 & H2 & H3).
  repeat split; try assumption. apply min3_cases.
Qed.

(** [vehicule_presse], at 200 km/h: the odometer advances at the limit of
    the route, 90 km/h. *)
Lemma avancer_vitesse_effective_temoin :
  exists vitesse_effective : float,
    distance_parcourue (avancer vehicule_presse 6) =
      0 + vitesse_effective * (6 / 60) /\
    (vitesse_effective <=? 200) = true /\
    (vitesse_effective <=? 90) = true /\
    (vitesse_effective <=? 130) = true /\
    (vitesse_effective = 200 \/ vitesse_effective = 90 \/ vitesse_effective = 130).
Proof.
  exact (avancer_vitesse_effective vehicule_presse route_a1 6
           eq_refl eq_refl eq_refl eq_refl).
Defined.

(** X9.  With no vehicle ahead and numbers for the speed, the route's limit
    and the maximal speed, the speed [ajuster_vitesse] stores is at most
    [vitesse + 10], at most the limit and at most the maximal speed; and if
    the speed before had reached one of the two caps, the new speed has
    reached one of them too (it is then, in value, the lesser cap). *)
Theorem ajuster_vitesse_libre_plafonnee (self : Vehicule) (route : Route)
    (distance_securite : float) :
  route_actuelle self = Some route ->
  is_nan (vitesse self) = false ->
  is_nan (limite_vitesse route) = false ->
  is_nan (vitesse_max self) = false ->
  let v := vitesse (ajuster_vitesse self None distance_securite) in
  (v <=? vitesse self + 10) = true /\
  (v <=? limite_vitesse route) = true /\
  (v <=? vitesse_max self) = true /\
  ((limite_vitesse route <=? vitesse self) = true \/
   (vitesse_max self <=? vitesse self) = true ->
   (limite_vitesse route <=? v) = true \/ (vitesse_max self <=? v) = true).
Proof.
  intros Hr Hv Hl Hm. unfold ajuster_vitesse. rewrite Hr. cbn zeta.
  change (-1 <? 0) with true. cbn [vitesse set_vitesse].
  apply min3_acceleration; try assumption; [reflexivity |].
  now apply add_10_not_nan.
Qed.

(** The free road brings [vehicule_presse] from 200 km/h back to the
    limit, 90 km/h. *)
Lemma ajuster_vitesse_libre_plafonnee_temoin :
  vitesse (ajuster_vitesse vehicule_presse None distance_securite_defaut) = 90 /\
  (vitesse (ajuster_vitesse vehicule_presse None distance_securite_defaut)
   <=? 130) = true /\
  ((90 <=? vitesse (ajuster_vitesse vehicule_presse None
                      distance_securite_defaut)) = true \/
   (130 <=? vitesse (ajuster_vitesse vehicule_presse None
                       distance_securite_defaut)) = true).
Proof.
  destruct (ajuster_vitesse_libre_plafonnee vehicule_presse route_a1
              distance_securite_defaut eq_refl eq_refl eq_refl eq_refl)
    as (_ & _ & H3 & H4).
  split; [reflexivity | split; [exact H3 | apply H4; left; reflexivity]].
Defined.

(** X10.  With a leader at a position not below 0 and a gap that is below
    neither [distance_securite] nor twice it, and numbers for the speed, the
    route's limit and the maximal speed, the speed [ajuster_vitesse] stores
    is at most [vitesse + 5], at most the limit and at most the maximal
    speed; and it has reached one of the two caps if the speed before
    had. *)
Theorem ajuster_vitesse_loin_plafonnee (self : Vehicule) (route : Route)
    (devant : Vehicule) (distance_securite : float) :
  route_actuelle self = Some route ->
  (position devant <? 0) = false ->
  (position devant - position self <? distance_securite) = false ->
  (position devant - position self <? distance_securite * 2) = false ->
  is_nan (vitesse self) = false ->
  is_nan (limite_vitesse route) = false ->
  is_nan (vitesse_max self) = false ->
  let v := vitesse (ajuster_vitesse self (Some devant) distance_securite) in
  (v <=? vitesse self + 5) = true /\
  (v <=? limite_vitesse route) = true /\
  (v <=? vitesse_max self) = true /\
  ((limite_vitesse route <=? vitesse self) = true \/
   (vitesse_max self <=? vitesse self) = true ->
   (limite_vitesse route <=? v) = true \/ (vitesse_max self <=? v) = true).
Proof.
  intros Hr Hp H1 H2 Hv Hl Hm. unfold ajuster_vitesse.
  rewrite Hr, Hp. cbn zeta. rewrite H1, H2. cbn [vitesse set_vitesse].
  apply min3_acceleration; try assumption; [reflexivity |].
  now apply add_5_not_nan.
Qed.

(** [vehicule_loin] is 5 km ahead of [vehicule_a1], which goes from 50 to
    55 km/h. *)
Lemma ajuster_vitesse_loin_plafonnee_temoin :
  vitesse (ajuster_vitesse vehicule_a1 (Some vehicule_loin)
             distance_securite_defaut) = 55 /\
  (vitesse (ajuster_vitesse vehicule_a1 (Some vehicule_loin)
              distance_securite_defaut) <=? 90) = true.
Proof.
  destruct (ajuster_vitesse_loin_plafonnee vehicule_a1 route_a1 vehicule_loin
              distance_securite_defaut eq_refl eq_refl eq_refl eq_refl eq_refl
              eq_refl eq_refl) as (_ & H2 & _).
  split; [reflexivity | exact H2].
Defined.

(** X11.  In the braking and the matching zones the call is idempotent:
    with the same leader, at a position not below 0 and a gap below
    [distance_securite] or below twice it, a second call of
    [ajuster_vitesse] changes nothing more. *)
Theorem ajuster_vitesse_idempotente (self : Vehicule) (route : Route)
    (devant : Vehicule) (distance_securite : float) :
  route_actuelle self = Some route ->
  (position devant <? 0) = false ->
  (position devant - position self <? distance_securite) = true \/
  (position devant - position self <? distance_securite * 2) = true ->
  ajuster_vitesse (ajuster_vitesse self (Some devant) distance_securite)
    (Some devant) distance_securite =
  ajuster_vitesse self (Some devant) distance_securite.
Proof.
  intros Hr Hp Hz.
  assert (E : exists v, ajuster_vitesse self (Some devant) distance_securite =
                        set_vitesse self v /\
                        ajuster_vitesse (set_vitesse self v) (Some devant)
                          distance_securite = set_vitesse self v).
  { unfold ajuster_vitesse. cbn [route_actuelle set_vitesse position].
    rewrite Hr, Hp. cbn zeta.
    destruct (position devant - position self <? distance_securite).
    - eexists. split; reflexivity.
    - destruct Hz as [Hz | Hz]; [discriminate |]. rewrite Hz.
      eexists. split; reflexivity. }
  destruct E as (v & E1 & E2). now rewrite E1.
Qed.

Lemma ajuster_vitesse_idempotente_temoin :
  ajuster_vitesse
    (ajuster_vitesse vehicule_a1 (Some vehicule_rapide) distance_securite_defaut)
    (Some vehicule_rapide) distance_securite_defaut =
  ajuster_vitesse vehicule_a1 (Some vehicule_rapide) distance_securite_defaut.
Proof.
  apply (ajuster_vitesse_idempotente vehicule_a1 route_a1 vehicule_rapide
           distance_securite_defaut eq_refl eq_refl).
  right. reflexivity.
Defined.

(** ** Sequences of steps *)

Lemma avancer_plusieurs_cons (self : Vehicule) (dt : float) (dts : list float) :
  avancer_plusieurs self (dt :: dts) = avancer_plusieurs (avancer self dt) dts.
Proof. reflexivity. Qed.

Lemma avancer_min3 (self : Vehicule) (route : Route) (dt : float) :
  min3 (vitesse (avancer self dt)) (limite_vitesse route)
    (vitesse_max (avancer self dt)) =
  min3 (vitesse self) (limite_vitesse route) (vitesse_max self).
Proof. destruct (avancer_conserve self dt) as (-> & -> & _). reflexivity. Qed.

Lemma avancer_plusieurs_temps (deltas : list float) :
  forall self : Vehicule,
  Forall (fun dt => (0 <=? dt) = true) deltas ->
  is_nan (temps_trajet (avancer_plusieurs self deltas)) = false ->
  (temps_trajet self <=? temps_trajet (avancer_plusieurs self deltas)) = true.
Proof.
  induction deltas as [| dt deltas IH]; intros self Hall Hnan.
  - now apply leb_refl.
  - inversion Hall as [| ? ? Hdt Hrest]; subst.
    rewrite avancer_plusieurs_cons in *.
    specialize (IH (avancer self dt) Hrest Hnan).
    apply leb_trans with (2 := IH).
    destruct (leb_not_nan _ _ IH) as [Hn _].
    destruct (route_actuelle self) as [route |] eqn:Hr.
    + rewrite (avancer_temps self route dt Hr) in *. now apply add_nonneg_ge.
    + unfold avancer in *. rewrite Hr in *. now apply leb_refl.
Qed.

Lemma avancer_plusieurs_distance (deltas : list float) :
  forall self : Vehicule,
  Forall (fun dt => (0 <=? dt) = true) deltas ->
  (forall route, route_actuelle self = Some route ->
     (0 <=? min3 (vitesse self) (limite_vitesse route) (vitesse_max self)) = true) ->
  is_nan (distance_parcourue (avancer_plusieurs self deltas)) = false ->
  (distance_parcourue self <=?
   distance_parcourue (avancer_plusieurs self deltas)) = true.
Proof.
  induction deltas as [| dt deltas IH]; intros self Hall Hv Hnan.
  - now apply leb_refl.
  - inversion Hall as [| ? ? Hdt Hrest]; subst.
    rewrite avancer_plusieurs_cons in *.
    destruct (avancer_conserve self dt) as (_ & _ & Er & _).
    assert (Hv' : forall route, route_actuelle (avancer self dt) = Some route ->
              (0 <=? min3 (vitesse (avancer self dt)) (limite_vitesse route)
                       (vitesse_max (avancer self dt))) = true).
    { intros route H. rewrite avancer_min3. apply Hv. congruence. }
    specialize (IH (avancer self dt) Hrest Hv' Hnan).
    apply leb_trans with (2 := IH).
    destruct (leb_not_nan _ _ IH) as [Hn _].
    destruct (route_actuelle self) as [route |] eqn:Hr.
    + rewrite (avancer_distance self route dt Hr) in *.
      apply add_nonneg_ge; [| assumption].
      apply deplacement_nonneg; [assumption | now apply Hv |].
      now apply add_not_nan_r with (x := distance_parcourue self).
    + unfold avancer in *. rewrite Hr in *. now apply leb_refl.
Qed.

(** X12.  Over any sequence of steps [delta_t >= 0], with an effective
    speed that is not negative, the odometer and the travel time at the end
    are at least what they were at the start, provided the final values are
    numbers: nothing is asked of the intermediate values. *)
Theorem avancer_plusieurs_monotone (self : Vehicule) (deltas : list float) :
  Forall (fun dt => (0 <=? dt) = true) deltas ->
  (forall route, route_actuelle self = Some route ->
     (0 <=? min3 (vitesse self) (limite_vitesse route) (vitesse_max self)) = true) ->
  is_nan (distance_parcourue (avancer_plusieurs self deltas)) = false ->
  is_nan (temps_trajet (avancer_plusieurs self deltas)) = false ->
  (distance_parcourue self <=?
   distance_parcourue (avancer_plusieurs self deltas)) = true /\
  (temps_trajet self <=? temps_trajet (avancer_plusieurs self deltas)) = true.
Proof.
  intros Hall Hv Hd Ht. split.
  - now apply avancer_plusieurs_distance.
  - now apply avancer_plusieurs_temps.
Qed.

Lemma avancer_plusieurs_monotone_temoin :
  (distance_parcourue vehicule_a1 <=?
   distance_parcourue (avancer_plusieurs vehicule_a1 [6; 0; 30])) = true /\
  (temps_trajet vehicule_a1 <=?
   temps_trajet (avancer_plusieurs vehicule_a1 [6; 0; 30])) = true.
Proof.
  apply (avancer_plusieurs_monotone vehicule_a1 [6; 0; 30]).
  - repeat (constructor; [reflexivity |]). constructor.
  - intros route H. injection H as <-. reflexivity.
  - reflexivity.
  - reflexivity.
Defined.

Lemma fold_left_egal (f g : float -> float -> float) (l : list float) :
  (forall a d, f a d = g a d) ->
  forall a, fold_left f l a = fold_left g l a.
Proof.
  intros H. induction l as [| d l IH]; intros a; [reflexivity |].
  cbn [fold_left]. now rewrite H, IH.
Qed.

(** X13.  With a current route, after any sequence of steps the travel time
    is the sum, left to right, of the [delta_t] added to the initial time,
    and the odometer is the sum of the displacements added to the initial
    odometer: neither depends on the position, so both keep counting once
    the end of the route is reached. *)
Theorem avancer_plusieurs_cumuls (self : Vehicule) (route : Route)
    (deltas : list float) :
  route_actuelle self = Some route ->
  temps_trajet (avancer_plusieurs self deltas) =
    fold_left PrimFloat.add deltas (temps_trajet self) /\
  distance_parcourue (avancer_plusieurs self deltas) =
    fold_left (fun cumul dt => cumul + deplacement self route dt) deltas
      (distance_parcourue self).
Proof.
  revert self. induction deltas as [| dt deltas IH]; intros self Hr.
  - split; reflexivity.
  - rewrite avancer_plusieurs_cons.
    destruct (avancer_conserve self dt) as (_ & _ & Er & _).
    destruct (IH (avancer self dt)) as [IH1 IH2]; [congruence |].
    rewrite IH1, IH2, (avancer_temps self route dt Hr),
      (avancer_distance self route dt Hr).
    split; [reflexivity |]. cbn [fold_left].
    apply fold_left_egal. intros cumul d. now rewrite deplacement_avancer.
Qed.

(** [vehicule_au_bout] stays at 10 km while its odometer and its clock go
    on: three steps of 6, 12 and 6 minutes at 50 km/h add 20 km and 24
    minutes. *)
Lemma avancer_plusieurs_cumuls_temoin :
  temps_trajet (avancer_plusieurs vehicule_au_bout [6; 12; 6]) = 24 /\
  distance_parcourue (avancer_plusieurs vehicule_au_bout [6; 12; 6]) = 20.
Proof.
  exact (avancer_plusieurs_cumuls vehicule_au_bout route_a1 [6; 12; 6] eq_refl).
Defined.

(** ** Transfers *)

Lemma changer_de_route_alterne (self : Vehicule) (nouvelle_route : option Route)
    (journal : list appel) :
  journal_alterne (route_actuelle self) journal ->
  journal_alterne
    (route_actuelle (snd (fst (changer_de_route self nouvelle_route journal))))
    (snd (changer_de_route self nouvelle_route journal)).
Proof.
  intros H. destruct nouvelle_route as [nouvelle |]; cbn; [| exact H].
  destruct (route_actuelle self) as [ancienne |].
  - apply journal_ajout. now apply journal_retrait.
  - now apply journal_ajout.
Qed.

Lemma transferts_cons (self : Vehicule) (nouvelle_route : option Route)
    (routes : list (option Route)) (journal : list appel) :
  transferts self (nouvelle_route :: routes) journal =
  transferts (snd (fst (changer_de_route self nouvelle_route journal))) routes
    (snd (changer_de_route self nouvelle_route journal)).
Proof.
  unfold transferts. cbn [fold_left fst snd].
  now destruct (changer_de_route self nouvelle_route journal) as [[ok apres] j].
Qed.

Lemma transferts_alterne (routes : list (option Route)) :
  forall (self : Vehicule) (journal : list appel),
  journal_alterne (route_actuelle self) journal ->
  journal_alterne (route_actuelle (fst (transferts self routes journal)))
    (snd (transferts self routes journal)).
Proof.
  induction routes as [| nr routes IH]; intros self journal H; [exact H |].
  rewrite transferts_cons. apply IH. now apply changer_de_route_alterne.
Qed.

Lemma transferts_route (routes : list (option Route)) :
  forall (self : Vehicule) (journal : list appel),
  route_actuelle (fst (transferts self routes journal)) =
  route_demandee (route_actuelle self) routes.
Proof.
  induction routes as [| nr routes IH]; intros self journal; [reflexivity |].
  rewrite transferts_cons, IH. unfold route_demandee. cbn [fold_left].
  now destruct nr.
Qed.

(** X14.  Starting from a vehicle with no route and an empty journal, any
    sequence of calls of [changer_de_route] leaves a journal in which
    additions and removals alternate, each removal naming the route added
    just before, and which ends registered with the vehicle's current
    route; that route is the last one requested that was not [None]. *)
Theorem transferts_journal_alterne (self : Vehicule)
    (routes : list (option Route)) :
  route_actuelle self = None ->
  journal_alterne (route_actuelle (fst (transferts self routes [])))
    (snd (transferts self routes [])) /\
  route_actuelle (fst (transferts self routes [])) = route_demandee None routes.
Proof.
  intros Hr. split.
  - apply transferts_alterne. rewrite Hr. constructor.
  - now rewrite transferts_route, Hr.
Qed.

(** [vehicule_libre] sent to [route_a1], then nowhere, then to [route_n7]:
    three calls into [Route], and the vehicle is on [route_n7]. *)
Lemma transferts_journal_alterne_temoin :
  journal_alterne (Some route_n7)
    (snd (transferts vehicule_libre [Some route_a1; None; Some route_n7] [])) /\
  List.length
    (snd (transferts vehicule_libre [Some route_a1; None; Some route_n7] [])) =
  3%nat.
Proof.
  split; [| reflexivity].
  exact (proj1 (transferts_journal_alterne vehicule_libre
                  [Some route_a1; None; Some route_n7] eq_refl)).
Defined.
